(** * deepshell: the command executor and the task queue

    A shallow embedding of [utils/shell_utils.py] (class [CommandExecutor])
    and [src/core/task_manager.py] (class [TaskManager]), with the
    properties their specification states about them.

    Python text is modelled by Rocq strings (code points below 256), the
    coroutines of [CommandExecutor] by a state-and-exception monad over the
    executor object, the UI collaborator and a chronological trace of the
    calls made to the outside (prompts, prints, subprocess operations), and
    the asyncio scheduling of [TaskManager] by a transition system whose
    steps are the atomic stretches of code between two suspension points. *)

From Stdlib Require Import String Ascii List ZArith Lia Bool Arith.
From stdpp Require Import base list.
Import ListNotations.

Local Open Scope string_scope.
Local Open Scope list_scope.

(** ** Python built-ins on text *)

Module Py.

(** Truthiness of a [str] and of an [Optional[str]]. *)
Definition truthy (s : string) : bool :=
  match s with EmptyString => false | String _ _ => true end.

Definition truthy_opt (o : option string) : bool :=
  match o with Some s => truthy s | None => false end.

(** [str.isspace] on one character (Unicode white space below 256). *)
Definition isspace (c : ascii) : bool :=
  let n := nat_of_ascii c in
  (((9 <=? n) && (n <=? 13)) || ((28 <=? n) && (n <=? 32))
   || (n =? 133) || (n =? 160))%nat.

Fixpoint lstrip (s : string) : string :=
  match s with
  | EmptyString => EmptyString
  | String c r => if isspace c then lstrip r else s
  end.

Fixpoint rstrip (s : string) : string :=
  match s with
  | EmptyString => EmptyString
  | String c r =>
      let r' := rstrip r in
      if isspace c && negb (truthy r') then EmptyString else String c r'
  end.

Definition strip (s : string) : string := rstrip (lstrip s).

(** [str.lower] on one character: A-Z and the Latin-1 capitals. *)
Definition lower_char (c : ascii) : ascii :=
  let n := nat_of_ascii c in
  if (((65 <=? n) && (n <=? 90))
      || ((192 <=? n) && (n <=? 222) && negb (n =? 215)))%nat
  then ascii_of_nat (n + 32) else c.

Fixpoint lower (s : string) : string :=
  match s with
  | EmptyString => EmptyString
  | String c r => String (lower_char c) (lower r)
  end.

(** [s.startswith(p)]. *)
Definition startswith (s p : string) : bool := String.prefix p s.

(** [kw in s]. *)
Fixpoint contains (kw s : string) : bool :=
  String.prefix kw s
  || match s with
     | EmptyString => false
     | String _ r => contains kw r
     end.

(** [s[n:]] for a non-negative literal [n]. *)
Fixpoint slice_from (n : nat) (s : string) : string :=
  match n, s with
  | O, _ => s
  | S _, EmptyString => EmptyString
  | S n', String _ r => slice_from n' r
  end.

(** [l[:k]]: a negative bound counts from the end of the list. *)
Definition slice_to {A} (k : Z) (l : list A) : list A :=
  if (0 <=? k)%Z then firstn (Z.to_nat k) l
  else firstn (Z.to_nat (Z.of_nat (length l) + k)) l.

(** [sep.join(l)]. *)
Fixpoint join (sep : string) (l : list string) : string :=
  match l with
  | [] => EmptyString
  | [x] => x
  | x :: r => String.append x (String.append sep (join sep r))
  end.

(** The line boundaries of [str.splitlines] below 256. *)
Definition is_linebreak (c : ascii) : bool :=
  let n := nat_of_ascii c in
  (((10 <=? n) && (n <=? 13)) || ((28 <=? n) && (n <=? 30))
   || (n =? 133))%nat.

Definition CR : ascii := ascii_of_nat 13.
Definition LF : ascii := ascii_of_nat 10.

(** [cur] holds the characters of the line being read. *)
Fixpoint splitlines_from (cur : string) (s : string) : list string :=
  match s with
  | EmptyString => if truthy cur then [cur] else []
  | String c r =>
      if is_linebreak c then
        match r with
        | String d r' =>
            if Ascii.eqb c CR && Ascii.eqb d LF
            then cur :: splitlines_from EmptyString r'
            else cur :: splitlines_from EmptyString r
        | EmptyString => [cur]
        end
      else splitlines_from (String.append cur (String c EmptyString)) r
  end.

Definition splitlines (s : string) : list string :=
  splitlines_from EmptyString s.

End Py.

(** ** Exceptions and results *)

(** The exceptions that occur in the two classes. [CancelledError],
    [KeyboardInterrupt] and [SystemExit] derive from [BaseException] only;
    the others derive from [Exception]. *)
Inductive exn : Type :=
| CancelledError
| KeyboardInterrupt
| SystemExit
| TypeError (msg : string)
| ValueError (msg : string)
| OSError (msg : string)
| ProcessLookupError
| BrokenPipeError
| EOFError
| AttributeError (msg : string)
| InvalidStateError.

(** [isinstance(e, Exception)], what [except Exception] catches. *)
Definition is_Exception (e : exn) : bool :=
  match e with
  | CancelledError | KeyboardInterrupt | SystemExit => false
  | _ => true
  end.

Definition is_CancelledError (e : exn) : bool :=
  match e with CancelledError => true | _ => false end.

(** What a call or an [await] ends with: a value, or a raised exception. *)
Inductive result (A : Type) : Type :=
| Ok (a : A)
| Raise (e : exn).
Arguments Ok {A} a.
Arguments Raise {A} e.

(** ** The command executor *)

(** The methods of [CommandExecutor] are functions of the monad [M]:
    they read and update the executor object, add to the trace the calls
    they make to the outside, and end with a value or an exception. What
    the outside answers is given by an environment: the answers of the
    human, the outcome of each spawn, and for each process what its
    stdout delivers, what [communicate()] returns and the exit code.
    [CancelledError] is an exception among the others, raised by the
    [await] at which the cancellation arrives.

    The monitor task runs concurrently with the reading loop and is paced
    by [asyncio.sleep]: the model records that it is started and
    cancelled, and a termination it causes shows as the end of the
    process's stdout. [_is_text], which no method calls, is left out. *)

Module Executor.

(** The values of [config/settings.py] the class reads. *)
Record Settings : Type := {
  MONITOR_INTERVAL : Z;
  MAX_OUTPUT_LINES : Z;
  OUTPUT_VALIDATION : bool
}.

(** The UI collaborator: the executor reads and writes its [pswd]. *)
Record UI : Type := { pswd : option string }.

(** An entry of [history]: the dict [{"command", "output", "error"}]. *)
Record CommandRecord : Type := {
  command : string;
  output : string;
  error : string
}.

Record CommandExecutor : Type := {
  history : list CommandRecord;
  ui : option UI;
  _should_stop : bool;
  sudo_password : option string;
  monitor_interval : Z;
  max_output_lines : Z;
  output_validation : bool
}.

(** What one [await proc.stdout.readline()] of the reading loop meets: a
    line (its text, [line.decode("utf-8", errors="ignore")], together with
    what [await proc.stdin.drain()] does if the line is answered), or an
    exception raised at that suspension point ([CancelledError] when the
    caller cancels). The end of the list is the end of the stream, the empty
    [line] that leaves the loop. *)
Inductive stdout_read : Type :=
| Line (text : string) (drain : result unit)
| ReadRaises (e : exn).

(** A spawned child process, as far as the executor observes it: what its
    stdout gives to the reading loop, what [communicate()] returns (the
    decoded stdout and stderr left over) and its exit code; and, for the
    time a cancellation is handled, what [proc.terminate()] does and what
    [await proc.wait()] ends with. [terminate()] raises
    [ProcessLookupError] once the child has exited and its pipes are
    closed, which it may well have when the cancellation arrives at the
    input of a password or at [drain()]; [wait()] is a suspension point,
    at which a further cancellation may arrive. *)
Record Process : Type := {
  stdout : list stdout_read;
  communicate : result (string * string);
  returncode : Z;
  terminate : result unit;
  wait : result unit
}.

(** The outside of the executor: the answer to the [k]-th input request,
    the outcome of the [k]-th [asyncio.create_subprocess_shell], and the
    value of [secrets.token_urlsafe(32)]. *)
Record Env : Type := {
  user_input : nat -> result string;
  create_subprocess_shell : nat -> string -> result Process;
  token_urlsafe : string
}.

(** The calls the executor makes to the outside, in the order made. A
    process is named by the rank of its spawn. *)
Inductive event : Type :=
| EPrompt (prompt_text : string) (is_password : bool) (input_text : string)
| EInput (prompt_text : string)
| EFancyPrint (message : string)
| EPrint (message : string)
| ESpawn (cmd : string)
| EMonitorStart (pid : nat)
| EMonitorCancel (pid : nat)
| EStdinWrite (pid : nat) (data : string)
| ETerminate (pid : nat)
| EWait (pid : nat)
| ECommunicate (pid : nat).

Record World : Type := {
  self : CommandExecutor;
  trace : list event
}.

Definition is_prompt (e : event) : bool :=
  match e with EPrompt _ _ _ | EInput _ => true | _ => false end.

Definition is_spawn (e : event) : bool :=
  match e with ESpawn _ => true | _ => false end.

Definition prompts (t : list event) : list event := List.filter is_prompt t.
Definition spawns (t : list event) : list event := List.filter is_spawn t.

(** *** The monad of the executor's methods *)

Definition M (A : Type) : Type := Env -> World -> result A * World.

Definition ret {A} (a : A) : M A := fun _ w => (Ok a, w).

Definition throw {A} (e : exn) : M A := fun _ w => (Raise e, w).

Definition bind {A B} (m : M A) (k : A -> M B) : M B :=
  fun env w =>
    match m env w with
    | (Ok a, w') => k a env w'
    | (Raise e, w') => (Raise e, w')
    end.

Notation "'do' x <- m ; k" := (bind m (fun x => k))
  (at level 10, x name, m at level 100, k at level 200).
Notation "'do_' m ; k" := (bind m (fun _ => k))
  (at level 10, m at level 100, k at level 200).

Definition lift {A} (r : result A) : M A := fun _ w => (r, w).

Definition get_self : M CommandExecutor := fun _ w => (Ok (self w), w).

Definition record_event (w : World) (e : event) : World :=
  {| self := self w; trace := trace w ++ [e] |}.

Definition emit (e : event) : M unit :=
  fun _ w => (Ok tt, record_event w e).

Definition with_sudo_password (v : option string) (s : CommandExecutor)
    : CommandExecutor :=
  {| history := history s; ui := ui s;
     _should_stop := _should_stop s; sudo_password := v;
     monitor_interval := monitor_interval s;
     max_output_lines := max_output_lines s;
     output_validation := output_validation s |}.

(** [self.ui.pswd = v], run only where [self.ui] is set. *)
Definition with_ui_pswd (v : option string) (s : CommandExecutor)
    : CommandExecutor :=
  {| history := history s;
     ui := match ui s with
           | Some _ => Some {| pswd := v |}
           | None => None
           end;
     _should_stop := _should_stop s;
     sudo_password := sudo_password s;
     monitor_interval := monitor_interval s;
     max_output_lines := max_output_lines s;
     output_validation := output_validation s |}.

Definition with_history_append (r : CommandRecord) (s : CommandExecutor)
    : CommandExecutor :=
  {| history := history s ++ [r]; ui := ui s;
     _should_stop := _should_stop s;
     sudo_password := sudo_password s;
     monitor_interval := monitor_interval s;
     max_output_lines := max_output_lines s;
     output_validation := output_validation s |}.

Definition update_self (f : CommandExecutor -> CommandExecutor) : M unit :=
  fun _ w => (Ok tt, {| self := f (self w); trace := trace w |}).

Definition set_sudo_password (v : option string) : M unit :=
  update_self (with_sudo_password v).

Definition set_ui_pswd (v : option string) : M unit :=
  update_self (with_ui_pswd v).

Definition history_append (r : CommandRecord) : M unit :=
  update_self (with_history_append r).

(** *** Construction *)

Definition __init__ (cfg : Settings) (ui0 : option UI) : CommandExecutor :=
  {| history := [];
     ui := ui0;
     _should_stop := false;
     sudo_password := match ui0 with Some u => pswd u | None => None end;
     monitor_interval := MONITOR_INTERVAL cfg;
     max_output_lines := MAX_OUTPUT_LINES cfg;
     output_validation := OUTPUT_VALIDATION cfg |}.

(** *** Cleaning of output lines *)

Definition ESC : ascii := ascii_of_nat 27.

Definition nl (s : string) : string := String Py.LF s.

Fixpoint has_m (s : string) : bool :=
  match s with
  | EmptyString => false
  | String c r => Ascii.eqb c "m"%char || has_m r
  end.

(** [re.sub(r'\x1b[^m]*m', '', data)]: [inside] tells that an escape
    sequence has been entered and its closing [m] not yet met. *)
Fixpoint remove_ansi_from (inside : bool) (data : string) : string :=
  match data with
  | EmptyString => EmptyString
  | String c r =>
      if inside then
        if Ascii.eqb c "m"%char then remove_ansi_from false r
        else remove_ansi_from true r
      else if Ascii.eqb c ESC && has_m r then remove_ansi_from true r
      else String c (remove_ansi_from false r)
  end.

Definition remove_ansi (data : string) : string := remove_ansi_from false data.

Definition is_control (c : ascii) : bool :=
  let n := nat_of_ascii c in ((n <=? 31) || (n =? 127))%nat.

(** [re.sub(r'[\x00-\x1F\x7F]', '', data)]. *)
Fixpoint remove_control (data : string) : string :=
  match data with
  | EmptyString => EmptyString
  | String c r =>
      if is_control c then remove_control r else String c (remove_control r)
  end.

Definition _extract_meaningful_text (data : string) : option string :=
  let cleaned_data := remove_control (remove_ansi data) in
  if (0 <? String.length (Py.strip cleaned_data))%nat
  then Some (Py.strip cleaned_data)
  else None.

Definition prompt_keywords : list string :=
  ["[y/n]"; "(yes/no)"; "(y/n)"; "password:"; "continue?"].

Definition _should_handle_prompt (decoded_line : string) : bool :=
  existsb (fun kw => Py.contains kw (Py.lower decoded_line)) prompt_keywords.

(** *** Input, display and subprocess creation *)

Definition _get_user_input (prompt_text : string) (is_password : bool)
    (input_text : string) : M string :=
  fun env w =>
    let k := length (prompts (trace w)) in
    let e := match ui (self w) with
             | Some _ => EPrompt prompt_text is_password input_text
             | None => EInput prompt_text
             end in
    (user_input env k, record_event w e).

Definition _print_message (message : string) : M unit :=
  do s <- get_self;
  match ui s with
  | Some _ => emit (EFancyPrint message)
  | None => emit (EPrint message)
  end.

(** A process handle: the rank of its spawn and what the process does. *)
Definition Handle : Type := (nat * Process)%type.

(** The method returns what [asyncio.create_subprocess_shell] returns, a
    process, and raises what it raises. Its callers test the handle against
    [None]; the type keeps that case. *)
Definition _start_subprocess (cmd : string) : M (option Handle) :=
  fun env w =>
    let k := length (spawns (trace w)) in
    let w' := record_event w (ESpawn cmd) in
    match create_subprocess_shell env k cmd with
    | Ok p => (Ok (Some (k, p)), w')
    | Raise e => (Raise e, w')
    end.

(** *** The sudo credential *)

Definition _clear_sudo_password : M unit :=
  fun env =>
    (do_ set_sudo_password (Some (token_urlsafe env));
     set_sudo_password None) env.

Definition validation_command (sudo_password0 : string) : string :=
  String.append "echo " (String.append sudo_password0 " | sudo -S -v").

Definition _validate_sudo_password (sudo_password0 : string) : M bool :=
  do proc <- _start_subprocess (validation_command sudo_password0);
  match proc with
  | None => throw (AttributeError "communicate")
  | Some (pid, p) =>
      do_ emit (ECommunicate pid);
      do _ <- lift (communicate p);
      if (returncode p =? 0)%Z then ret true else ret false
  end.

Definition ui_pswd (s : CommandExecutor) : option string :=
  match ui s with Some u => pswd u | None => None end.

Definition when_ui (m : M unit) : M unit :=
  do s <- get_self;
  match ui s with Some _ => m | None => ret tt end.

Definition _get_sudo_password : M (option string) :=
  do s <- get_self;
  if Py.truthy_opt (ui_pswd s) then
    do_ set_sudo_password (ui_pswd s);
    ret None
  else
    do a <- _get_user_input "Enter sudo password: " true EmptyString;
    do_ set_sudo_password (Some a);
    if Py.truthy a then
      do valid <- _validate_sudo_password a;
      if valid then
        do_ when_ui (set_ui_pswd (Some a));
        ret (Some a)
      else
        do_ when_ui (set_ui_pswd None);
        do_ set_sudo_password None;
        do_ _print_message (nl "Wrong password");
        ret None
    else ret None.

(** *** Reading the output of the process *)

Definition _handle_prompt (pid : nat) (drain : result unit)
    (decoded_line : string) : M unit :=
  do response <-
    (if Py.contains "password:" (Py.lower decoded_line) then
       do s <- get_self;
       match sudo_password s with
       | Some pw => if Py.truthy pw then ret pw
                    else _get_user_input "Enter password: " true EmptyString
       | None => _get_user_input "Enter password: " true EmptyString
       end
     else ret "yes");
  do_ emit (EStdinWrite pid (String.append response (nl EmptyString)));
  lift drain.

Definition no_output_message : string :=
  "No output received. Command may require user interaction or is piped.".

Definition truncation_marker : string := "[Output truncated]".

(** The [while True] loop of [_process_command_output], by recursion on
    what the stream still holds. It returns [output_lines] as the loop
    leaves it, together with how the loop ended: by [break], or by an
    exception. *)
Fixpoint read_loop (pid : nat) (script : list stdout_read)
    (output_lines : list string) (env : Env) (w : World)
    : (list string * result unit) * World :=
  match script with
  | [] => ((output_lines, Ok tt), w)
  | ReadRaises e :: _ => ((output_lines, Raise e), w)
  | Line text drain :: rest =>
      let decoded_line := Py.strip text in
      let extracted_text := _extract_meaningful_text decoded_line in
      let output_lines' :=
        match extracted_text with
        | Some t => if Py.truthy t then output_lines ++ [t] else output_lines
        | None => output_lines
        end in
      if _should_handle_prompt decoded_line then
        match _handle_prompt pid drain decoded_line env w with
        | (Ok _, w') => read_loop pid rest output_lines' env w'
        | (Raise e, w') => ((output_lines', Raise e), w')
        end
      else read_loop pid rest output_lines' env w
  end.

(** Lines 265 to 275 of [_finalize_command_output]: the lines collected by
    the loop, extended with what [communicate()] still returned, or the
    fixed message when there is none. *)
Definition collect_output_lines (output_lines : list string)
    (output0 : string) : list string :=
  let additional_output :=
    if Py.truthy output0 then Py.strip output0 else EmptyString in
  let output_lines1 :=
    if Py.truthy additional_output
    then output_lines ++ Py.splitlines additional_output
    else output_lines in
  match output_lines1 with
  | [] => [no_output_message]
  | _ :: _ => output_lines1
  end.

(** Lines 278 to 280: truncation to the line limit. *)
Definition truncate_output_lines (limit : Z) (output_lines : list string)
    : list string :=
  if (limit <? Z.of_nat (length output_lines))%Z
  then Py.slice_to limit output_lines ++ [truncation_marker]
  else output_lines.

Definition _finalize_command_output (proc : Handle) (command0 : string)
    (output_lines : list string) (output0 error0 : string) : M string :=
  let output_lines1 := collect_output_lines output_lines output0 in
  let error_str :=
    if Py.truthy error0 then Py.strip error0 else EmptyString in
  do s <- get_self;
  let output_lines2 :=
    truncate_output_lines (max_output_lines s) output_lines1 in
  let output_str := Py.join (nl EmptyString) output_lines2 in
  do_ history_append
        {| command := command0; output := output_str; error := error_str |};
  do_ _clear_sudo_password;
  ret (if (returncode (snd proc) =? 0)%Z then output_str
       else String.append "Error: " error_str).

(** [try: m finally: monitor_task.cancel()], for an [m] that leaves by a
    return or by an exception. *)
Definition then_cancel_monitor {A} (pid : nat) (m : M A) : M A :=
  fun env w =>
    match m env w with
    | (r, w') => (r, record_event w' (EMonitorCancel pid))
    end.

(** The handler of [asyncio.CancelledError]. *)
Definition on_cancelled (proc : Handle) (output_lines : list string)
    : M string :=
  do_ emit (ETerminate (fst proc));
  do_ lift (terminate (snd proc));
  do_ emit (EWait (fst proc));
  do_ lift (wait (snd proc));
  ret (Py.join (nl EmptyString) output_lines).

Definition _process_command_output (proc : Handle) (command0 : string)
    : M string :=
  let pid := fst proc in
  do_ emit (EMonitorStart pid);
  fun env w =>
    match read_loop pid (stdout (snd proc)) [] env w with
    | ((output_lines, Ok _), w1) =>
        (do_ emit (EMonitorCancel pid);
         let output_lines' :=
           match output_lines with
           | [] => [no_output_message]
           | _ :: _ => output_lines
           end in
         do_ emit (ECommunicate pid);
         do oe <- lift (communicate (snd proc));
         _finalize_command_output proc command0 output_lines'
           (fst oe) (snd oe)) env w1
    | ((output_lines, Raise e), w1) =>
        if is_CancelledError e then
          then_cancel_monitor pid (on_cancelled proc output_lines) env w1
        else
          (do_ emit (EMonitorCancel pid);
           throw e) env w1
    end.

(** *** Execution *)

Definition sudo_command (sudo_password0 command0 : string) : string :=
  String.append "echo "
    (String.append sudo_password0
       (String.append " | sudo -S " (Py.slice_from 5 command0))).

(** Lines 90 to 96 of [execute_command]: spawn and process. *)
Definition spawn_and_process (command0 : string) : M (option string) :=
  do proc <- _start_subprocess command0;
  match proc with
  | None =>
      ret (Some
        "Error: Command did not produce valid output or is not interactive.")
  | Some h =>
      do out <- _process_command_output h command0;
      ret (Some out)
  end.

(** Lines 80 to 88 of [execute_command]: the command line to hand to the
    shell, or [None] when a credential is needed and none is provided. *)
Definition command_line (command0 : string) : M (option string) :=
  let require_sudo := Py.startswith command0 "sudo" in
  if require_sudo then
    do s <- get_self;
    do_ (if negb (Py.truthy_opt (sudo_password s))
         then do _ <- _get_sudo_password; ret tt
         else ret tt);
    do s' <- get_self;
    match sudo_password s' with
    | Some pw =>
        if Py.truthy pw then ret (Some (sudo_command pw command0))
        else ret None
    | None => ret None
    end
  else ret (Some command0).

Definition execute_command (command0 : string) : M (option string) :=
  if negb (Py.truthy command0) then ret (Some "No command provided.")
  else
    do line <- command_line command0;
    match line with
    | Some l => spawn_and_process l
    | None => ret None
    end.

Definition confirmation_prompt : string :=
  String.append "Validate the command and press [blue]Enter[/]."
    (nl "Or delete the text and press [blue]Enter[/] to cancel").

Definition confirm_execute_command (command0 : string) : M (option string) :=
  let command1 := Py.lstrip command0 in
  do command2 <- _get_user_input confirmation_prompt false command1;
  ret (if Py.truthy command2 then Some command2 else None).

Definition start (command0 : option string)
    : M (option string * option string) :=
  match command0 with
  | Some c =>
      if Py.truthy c then
        do confirmed_command <- confirm_execute_command c;
        match confirmed_command with
        | Some cc =>
            if Py.truthy cc then
              do output1 <- execute_command cc;
              ret (Some cc, output1)
            else ret (None, None)
        | None => ret (None, None)
        end
      else ret (None, Some "No command specified.")
  | None => ret (None, Some "No command specified.")
  end.

(** *** How the executor's methods touch the world *)

(** The events the reading loop produces for process [pid]: requests for
    input, and writes to the process's stdin. *)
Definition loop_event (pid : nat) (e : event) : bool :=
  match e with
  | EPrompt _ _ _ | EInput _ => true
  | EStdinWrite p _ => Nat.eqb p pid
  | _ => false
  end.

(** The events by which the exit of process [pid] is waited for. *)
Definition awaits_exit (pid : nat) (e : event) : bool :=
  match e with
  | EWait p | ECommunicate p => Nat.eqb p pid
  | _ => false
  end.

Definition terminates (pid : nat) (e : event) : bool :=
  match e with ETerminate p => Nat.eqb p pid | _ => false end.

(** *** Notions used in the statements *)

(** The world [_finalize_command_output] leaves: one record appended, the
    cached credential cleared, the trace and the rest untouched. *)
Definition finalized (w : World) (r : CommandRecord) : World :=
  {| self := with_sudo_password None (with_history_append r (self w));
     trace := trace w |}.

Definition final_output (w : World) (output_lines : list string)
    (output0 : string) : string :=
  Py.join (nl EmptyString)
    (truncate_output_lines (max_output_lines (self w))
       (collect_output_lines output_lines output0)).

(** The credential [execute_command] finds without asking for it: the one
    cached on the executor, else the one kept by the UI. *)
Definition available_credential (s : CommandExecutor) : option string :=
  if Py.truthy_opt (sudo_password s) then sudo_password s
  else if Py.truthy_opt (ui_pswd s) then ui_pswd s
  else None.

(** The command line [execute_command] hands to the shell for a command,
    when it needs not ask for a credential. *)
Definition shell_command (s : CommandExecutor) (command0 : string)
    : option string :=
  if Py.startswith command0 "sudo" then
    match available_credential s with
    | Some pw => Some (sudo_command pw command0)
    | None => None
    end
  else Some command0.

(** The world once the credential, if one is needed, has been taken over
    from the UI. *)
Definition acquire (command0 : string) (w : World) : World :=
  if Py.startswith command0 "sudo"
     && negb (Py.truthy_opt (sudo_password (self w)))
  then {| self := with_sudo_password (ui_pswd (self w)) (self w);
          trace := trace w |}
  else w.

(** The reading loop as [_process_command_output] runs it: from no line,
    once the monitor is started. Its result is the lines accumulated and
    the way the loop was left. *)
Definition entered_loop (proc : Handle) (env : Env) (w : World)
    : (list string * result unit) * World :=
  read_loop (fst proc) (stdout (snd proc)) [] env
    (record_event w (EMonitorStart (fst proc))).

(** The history and the line limit are the same in both worlds. *)
Definition same_frame (w w' : World) : Prop :=
  history (self w') = history (self w)
  /\ max_output_lines (self w') = max_output_lines (self w).

Definition keeps_frame {A} (m : M A) : Prop :=
  forall env w, same_frame w (snd (m env w)).

(** What [asyncio.create_subprocess_shell] executes for a command line on
    POSIX: the shell, with the command line as one argument. *)
Definition shell_argv (cmd : string) : list string := ["/bin/sh"; "-c"; cmd].

(** The secret can be read off an argument list. *)
Definition on_argument_list (secret : string) (argv : list string) : bool :=
  existsb (Py.contains secret) argv.

End Executor.

(** ** The task queue *)

(** asyncio runs the callers of [enqueue], the callers of [stop] and the
    worker task on one thread, each from one suspension point to the next
    without interruption. A [step] of the model is one such stretch: a
    call of [enqueue] up to its [await future], a call of [start], a call
    of [stop] together with the cancellation it delivers, or a run of the
    worker task. A schedule is a list of steps. The cancellation of a
    caller of [enqueue] where it waits for its future, which cancels the
    future, is a turn of its own: the turns are the steps and these
    cancellations. The statements quantify over schedules, or over lists
    of turns.

    [KeyboardInterrupt] and [SystemExit] raised by a unit of work end the
    worker as every exception does that [except Exception] lets through.
    asyncio moreover lets these two out of the event loop; whether
    anything runs on the loop afterwards is for whoever runs it to decide
    ([asyncio.run] cancels the tasks that remain). The schedules that end
    there, and those that go on, are all among the schedules. *)

Module Tasks.

(** The result of a unit of work. *)
Definition value : Type := Z.

(** A unit of work as [enqueue] and the worker see it: the callable with
    its arguments. [name] is what the evaluation of [coro_func.__name__]
    ends with: the name, or an exception, [AttributeError] for a callable
    without that attribute such as a [functools.partial] object or
    [None]. [bind_error] is the message of the [TypeError] that
    [sig.bind(...)] raises, [None] when the arguments fit the signature.
    [body] is what [await coro_func(...)] ends with when left to run,
    [on_cancel] what it ends with when [CancelledError] is thrown into it
    where it is suspended (a coroutine that does not catch it ends with
    [Raise CancelledError]). *)
Record Work : Type := {
  name : result string;
  is_coroutine_function : bool;
  bind_error : option string;
  body : result value;
  on_cancel : result value
}.

(** [sig.bind(...)] returns. *)
Definition binds (w : Work) : bool :=
  match bind_error w with None => true | Some _ => false end.

(** A completion handle, [asyncio.Future]: pending, done with a result or
    an exception, or cancelled. *)
Inductive Future : Type :=
| Pending
| Finished (r : result value)
| Cancelled.

(** The tuple [(coro_func, args, kwargs, future)] put on the queue; the
    future is named by its rank of creation. *)
Definition PendingTask : Type := (Work * nat)%type.

(** The [asyncio.Task] running [_task_worker]: created and not yet run,
    suspended in [await coro_func(...)] for a task, or done (returned,
    failed or cancelled). *)
Inductive AsyncTask : Type :=
| Scheduled
| Awaiting (t : PendingTask)
| Done.

Record TaskManager : Type := {
  task_queue : list PendingTask;
  worker_running : bool;
  worker_task : option AsyncTask
}.

(** What the worker does, in the order done: the call of a unit of work,
    and the calls of [set_result] and [set_exception] that succeeded. *)
Inductive action : Type :=
| Began (future : nat)
| SetResult (future : nat) (v : value)
| SetException (future : nat) (e : exn).

(** The event loop around one [TaskManager]: the manager, the futures
    created so far and the worker's actions. *)
Record Loop : Type := {
  tm : TaskManager;
  futures : list Future;
  log : list action
}.

Definition __init__ : TaskManager :=
  {| task_queue := []; worker_running := false; worker_task := None |}.

Definition init : Loop := {| tm := __init__; futures := []; log := [] |}.

Definition task_done (t : option AsyncTask) : bool :=
  match t with Some Done => true | _ => false end.

Definition start (m : TaskManager) : TaskManager :=
  match worker_task m with
  | None | Some Done =>
      {| task_queue := task_queue m; worker_running := worker_running m;
         worker_task := Some Scheduled |}
  | Some _ => m
  end.

(** [enqueue] up to its [await future]: the validation, the creation of
    the future, the [put] (the queue is unbounded: no suspension) and the
    start of the worker. It returns the future the caller then awaits, or
    raises before anything is queued. *)
Definition enqueue (w : Work) (l : Loop) : result nat * Loop :=
  if negb (is_coroutine_function w) then
    (match name w with
     | Ok n => Raise (TypeError (String.append n " must be async"))
     | Raise e => Raise e
     end, l)
  else
    match bind_error w with
    | Some msg => (Raise (TypeError msg), l)
    | None =>
    let future := length (futures l) in
    let m := tm l in
    let m1 := {| task_queue := task_queue m ++ [(w, future)];
                 worker_running := worker_running m;
                 worker_task := worker_task m |} in
    let m2 := if negb (worker_running m1) then start m1 else m1 in
    (Ok future, {| tm := m2; futures := futures l ++ [Pending]; log := log l |})
    end.

(** The [finally] of [_task_worker], after which the task is done. *)
Definition worker_exit (l : Loop) : Loop :=
  {| tm := {| task_queue := task_queue (tm l); worker_running := false;
              worker_task := Some Done |};
     futures := futures l; log := log l |}.

(** The head of the [while] loop: leave when the queue is empty, else take
    the next task and call its unit of work, in which the worker is
    suspended. *)
Definition worker_loop (l : Loop) : Loop :=
  match task_queue (tm l) with
  | [] => worker_exit l
  | t :: q =>
      {| tm := {| task_queue := q; worker_running := worker_running (tm l);
                  worker_task := Some (Awaiting t) |};
         futures := futures l;
         log := log l ++ [Began (snd t)] |}
  end.

(** [_task_worker] from its entry to its first suspension: the first run
    of the worker task. *)
Definition _task_worker (l : Loop) : Loop :=
  if worker_running (tm l) then
    {| tm := {| task_queue := task_queue (tm l);
                worker_running := worker_running (tm l);
                worker_task := Some Done |};
       futures := futures l; log := log l |}
  else
    worker_loop
      {| tm := {| task_queue := task_queue (tm l); worker_running := true;
                  worker_task := worker_task (tm l) |};
         futures := futures l; log := log l |}.

(** [future.set_result] and [future.set_exception]: a future that is not
    pending, done or cancelled, raises [InvalidStateError]. *)
Definition resolve (future : nat) (r : result value) (l : Loop)
    : result unit * Loop :=
  match futures l !! future with
  | Some Pending =>
      (Ok tt,
       {| tm := tm l;
          futures := <[future := Finished r]> (futures l);
          log := log l ++ [match r with
                           | Ok v => SetResult future v
                           | Raise e => SetException future e
                           end] |})
  | _ => (Raise InvalidStateError, l)
  end.

(** The worker resumes from [await coro_func(...)], which ended with [r]:
    the body of the inner [try], the rest of the iteration, and the loop
    again. An exception that [except Exception] does not catch, or one
    raised in its handler ([InvalidStateError], when the future is
    cancelled or done), leaves through [finally] and ends the worker
    task. When it is [KeyboardInterrupt] or [SystemExit], it goes on out
    of the event loop: the state is the one the manager is left in, and
    the steps that follow, if any, are those of a loop run again. *)
Definition worker_resume (t : PendingTask) (r : result value) (l : Loop)
    : Loop :=
  let attempt :=
    match r with
    | Ok v => resolve (snd t) (Ok v) l
    | Raise e => (Raise e, l)
    end in
  match attempt with
  | (Ok _, l1) => worker_loop l1
  | (Raise e, l1) =>
      if is_Exception e then
        match resolve (snd t) (Raise e) l1 with
        | (Ok _, l2) => worker_loop l2
        | (Raise _, l2) => worker_exit l2
        end
      else worker_exit l1
  end.

(** [stop]: the cancellation reaches the worker where it is suspended. A
    task cancelled before its first run never enters the coroutine. *)
Definition stop (l : Loop) : Loop :=
  match worker_task (tm l) with
  | Some Scheduled =>
      {| tm := {| task_queue := task_queue (tm l);
                  worker_running := worker_running (tm l);
                  worker_task := Some Done |};
         futures := futures l; log := log l |}
  | Some (Awaiting t) => worker_resume t (on_cancel (fst t)) l
  | Some Done | None => l
  end.

(** The worker task is given the processor: it makes its first run, or
    the unit of work it awaits has ended. *)
Definition run_worker (l : Loop) : Loop :=
  match worker_task (tm l) with
  | Some Scheduled => _task_worker l
  | Some (Awaiting t) => worker_resume t (body (fst t)) l
  | Some Done | None => l
  end.

(** The steps of the event loop. *)
Inductive step : Type :=
| Enqueue (w : Work)
| Start
| Run
| Stop.

Definition do_step (e : step) (l : Loop) : Loop :=
  match e with
  | Enqueue w => snd (enqueue w l)
  | Start => {| tm := start (tm l); futures := futures l; log := log l |}
  | Run => run_worker l
  | Stop => stop l
  end.

Definition run_steps (es : list step) (l : Loop) : Loop :=
  fold_left (fun l e => do_step e l) es l.

(** The caller of [enqueue] that waits for [future] in [await future] is
    cancelled: its task cancels the future it waits for. A future that is
    done is left as it is; its caller has returned. *)
Definition cancel_caller (future : nat) (l : Loop) : Loop :=
  match futures l !! future with
  | Some Pending =>
      {| tm := tm l;
         futures := <[future := Cancelled]> (futures l);
         log := log l |}
  | _ => l
  end.

(** The turns of the event loop: the steps, and the cancellations of
    callers of [enqueue]. *)
Inductive turn : Type :=
| Own (e : step)
| CancelCaller (future : nat).

Definition do_turn (t : turn) (l : Loop) : Loop :=
  match t with
  | Own e => do_step e l
  | CancelCaller f => cancel_caller f l
  end.

Definition run_turns (ts : list turn) (l : Loop) : Loop :=
  fold_left (fun l t => do_turn t l) ts l.

(** The steps among the turns. *)
Fixpoint steps_of (ts : list turn) : list step :=
  match ts with
  | [] => []
  | Own e :: r => e :: steps_of r
  | CancelCaller _ :: r => steps_of r
  end.

(** The number of times a future was resolved. *)
Definition resolves (future : nat) (a : action) : bool :=
  match a with
  | SetResult f _ | SetException f _ => Nat.eqb f future
  | Began _ => false
  end.

Definition resolutions (future : nat) (lg : list action) : nat :=
  length (List.filter (resolves future) lg).

(** *** Notions used in the statements *)

(** The validation of [enqueue] passes. *)
Definition accepted (w : Work) : bool := is_coroutine_function w && binds w.

(** The units of work a schedule puts on the queue, in the order of the
    calls of [enqueue]; the future of the [i]-th is future [i]. *)
Fixpoint submitted (es : list step) : list Work :=
  match es with
  | [] => []
  | Enqueue w :: r => if accepted w then w :: submitted r else submitted r
  | _ :: r => submitted r
  end.

Definition is_stop (e : step) : bool :=
  match e with Stop => true | _ => false end.

Definition no_stop (es : list step) : bool :=
  forallb (fun e => negb (is_stop e)) es.

(** Neither [stop] is called nor a caller cancelled. *)
Definition undisturbed (ts : list turn) : bool :=
  forallb (fun t => match t with
                    | Own e => negb (is_stop e)
                    | CancelCaller _ => false
                    end) ts.

(** The unit of work returns, or raises an exception that derives from
    [Exception]. *)
Definition settles (w : Work) : bool :=
  match body w with
  | Ok _ => true
  | Raise e => is_Exception e
  end.

Definition resolution (future : nat) (r : result value) : action :=
  match r with
  | Ok v => SetResult future v
  | Raise e => SetException future e
  end.

(** The actions of a worker that runs the units of work one at a time, in
    their order, each one resolved before the next is called; the first
    has future [i]. *)
Fixpoint serial_log (i : nat) (ws : list Work) : list action :=
  match ws with
  | [] => []
  | w :: r => Began i :: resolution i (body w) :: serial_log (S i) r
  end.

(** The queue entries of the units [ws], the first having future [i]. *)
Fixpoint tasks_from (i : nat) (ws : list Work) : list PendingTask :=
  match ws with
  | [] => []
  | w :: r => (w, i) :: tasks_from (S i) r
  end.

Definition finished (w : Work) : Future := Finished (body w).
Definition pending (w : Work) : Future := Pending.

(** A queue entry stands for the unit of work submitted with its future. *)
Definition tracked (ws : list Work) (t : PendingTask) : Prop :=
  ws !! snd t = Some (fst t).

(** What holds of a loop under every schedule, [ws] being the units
    submitted so far: there is one future per unit; the queue and the
    worker hold units with their own futures; a pending or cancelled
    future was never resolved, and a finished one was resolved once, with
    what its unit of work ended with. *)
Record sound (ws : list Work) (l : Loop) : Prop := {
  sound_length : length (futures l) = length ws;
  sound_queue : Forall (tracked ws) (task_queue (tm l));
  sound_await :
    forall t, worker_task (tm l) = Some (Awaiting t) -> tracked ws t;
  sound_futures :
    forall f,
      match futures l !! f with
      | Some Pending | Some Cancelled | None => resolutions f (log l) = 0
      | Some (Finished r) =>
          resolutions f (log l) = 1
          /\ exists w, ws !! f = Some w /\ (r = body w \/ r = on_cancel w)
      end
}.

(** A pending future that neither the queue nor the worker holds. *)
Definition dropped (f : nat) (l : Loop) : Prop :=
  futures l !! f = Some Pending
  /\ Forall (fun t : PendingTask => snd t <> f) (task_queue (tm l))
  /\ (forall t, worker_task (tm l) = Some (Awaiting t) -> snd t <> f).

End Tasks.

(** ** Concrete settings, processes and units of work *)

Module Samples.
Import Executor.

Definition settings : Settings :=
  {| MONITOR_INTERVAL := 60; MAX_OUTPUT_LINES := 2;
     OUTPUT_VALIDATION := false |}.

(** A process that prints nothing and exits with code 0. *)
Definition quiet : Process :=
  {| stdout := [];
     communicate := Ok (EmptyString, EmptyString);
     returncode := 0;
     terminate := Ok tt; wait := Ok tt |}.

(** A process that prints three lines and exits with code 0. *)
Definition three_lines : Process :=
  {| stdout := [Line "one" (Ok tt); Line "two" (Ok tt); Line "three" (Ok tt)];
     communicate := Ok (EmptyString, EmptyString);
     returncode := 0;
     terminate := Ok tt; wait := Ok tt |}.

(** A process whose second line has no newline within the 64 KiB limit of
    the stream reader: [readline()] raises [ValueError]. *)
Definition overlong_line : Process :=
  {| stdout := [Line "one" (Ok tt);
                ReadRaises
                  (ValueError
                     "Separator is not found, and chunk exceed the limit")];
     communicate := Ok (EmptyString, EmptyString);
     returncode := 0;
     terminate := Ok tt; wait := Ok tt |}.

(** A process read for two lines, after which the caller cancels. *)
Definition cancelled_after_two : Process :=
  {| stdout := [Line "one" (Ok tt); Line "two" (Ok tt);
                ReadRaises CancelledError; Line "three" (Ok tt)];
     communicate := Ok (EmptyString, EmptyString);
     returncode := 0;
     terminate := Ok tt; wait := Ok tt |}.

(** The human empties every input field; every spawn gives [p]. *)
Definition env_of (p : Process) : Env :=
  {| user_input := fun _ => Ok EmptyString;
     create_subprocess_shell := fun _ _ => Ok p;
     token_urlsafe := "3q2-7wXk" |}.

(** The system refuses to create any process. *)
Definition env_spawn_fails : Env :=
  {| user_input := fun _ => Ok EmptyString;
     create_subprocess_shell :=
       fun _ _ => Raise (OSError "[Errno 24] Too many open files");
     token_urlsafe := "3q2-7wXk" |}.

(** An executor without UI, just built. *)
Definition fresh : World :=
  {| self := __init__ settings None; trace := [] |}.

(** An executor built on a UI that keeps the credential [pw]. *)
Definition fresh_with_ui (pw : string) : World :=
  {| self := __init__ settings (Some {| pswd := Some pw |}); trace := [] |}.

(** Units of work: [unit_A] returns 1, [unit_B] raises [ValueError],
    [unit_C] returns 3, [unit_X] raises [CancelledError] (something it
    awaited was cancelled). None catches a cancellation. *)
Definition unit_of (n : string) (b : result Tasks.value) : Tasks.Work :=
  {| Tasks.name := Ok n; Tasks.is_coroutine_function := true;
     Tasks.bind_error := None; Tasks.body := b;
     Tasks.on_cancel := Raise CancelledError |}.

Definition unit_A : Tasks.Work := unit_of "A" (Ok 1%Z).
Definition unit_B : Tasks.Work := unit_of "B" (Raise (ValueError "boom")).
Definition unit_C : Tasks.Work := unit_of "C" (Ok 3%Z).
Definition unit_X : Tasks.Work := unit_of "X" (Raise CancelledError).

(** An executor built on a UI that keeps no credential. *)
Definition fresh_with_empty_ui : World :=
  {| self := __init__ settings (Some {| pswd := None |}); trace := [] |}.

(** The human answers [a] to every input request; every spawn gives [p]. *)
Definition env_answering (a : string) (p : Process) : Env :=
  {| user_input := fun _ => Ok a;
     create_subprocess_shell := fun _ _ => Ok p;
     token_urlsafe := "3q2-7wXk" |}.

(** A process that prints a password prompt and exits: by the time a
    cancellation is handled it is gone, and [terminate()] raises. *)
Definition asks_and_exits : Process :=
  {| stdout := [Line "Password:" (Ok tt)];
     communicate := Ok (EmptyString, EmptyString);
     returncode := 0;
     terminate := Raise ProcessLookupError; wait := Ok tt |}.

(** The caller is cancelled while an input field is open; every spawn
    gives [p]. *)
Definition env_cancelled_at_input (p : Process) : Env :=
  {| user_input := fun _ => Raise CancelledError;
     create_subprocess_shell := fun _ _ => Ok p;
     token_urlsafe := "3q2-7wXk" |}.

End Samples.

(** ** More notions on the executor *)

Module ExecutorNotions.
Import Executor.

(** What the reading loop keeps of a line: [_extract_meaningful_text] of
    the stripped text. *)
Definition clean_line (text : string) : option string :=
  _extract_meaningful_text (Py.strip text).

(** The reading loop takes the line for a prompt. *)
Definition is_prompt_line (text : string) : bool :=
  _should_handle_prompt (Py.strip text).

Definition is_password_line (text : string) : bool :=
  Py.contains "password:" (Py.lower (Py.strip text)).

(** The texts of the lines of a stream, up to the first read that raises. *)
Fixpoint lines_read (script : list stdout_read) : list string :=
  match script with
  | Line text _ :: rest => text :: lines_read rest
  | _ => []
  end.

(** A stream of lines, each of which can be answered. *)
Definition answerable (texts : list string) : list stdout_read :=
  map (fun t => Line t (Ok tt)) texts.

(** The answer [_handle_prompt] writes when it asks nobody: the cached
    credential for a password prompt, [yes] otherwise. *)
Definition canned_answer (s : CommandExecutor) (text : string) : string :=
  if is_password_line text then
    match sudo_password s with Some pw => pw | None => EmptyString end
  else "yes".

Definition no_control (s : string) : bool :=
  forallb (fun c => negb (is_control c)) (list_ascii_of_string s).

(** The number of newline characters of a text. *)
Fixpoint count_LF (s : string) : nat :=
  match s with
  | EmptyString => 0
  | String c r => (if Ascii.eqb c Py.LF then 1 else 0) + count_LF r
  end.

Definition has_ESC (s : string) : bool :=
  existsb (fun c => Ascii.eqb c ESC) (list_ascii_of_string s).

(** The text is empty or begins with a character that is not white
    space. *)
Definition starts_clean (s : string) : bool :=
  match s with
  | EmptyString => true
  | String c _ => negb (Py.isspace c)
  end.

(** The text holds no newline. *)
Definition one_line (s : string) : Prop := count_LF s = 0.

End ExecutorNotions.

(** ** More concrete processes *)

Module MoreSamples.
Import Executor.


(** A process that prints two lines, then fails with code 2. *)
Definition failing : Process :=
  {| stdout := [Line "Reading  " (Ok tt); Line "E: not found" (Ok tt)];
     communicate := Ok (EmptyString, String.append " no such package " (nl EmptyString));
     returncode := 2;
     terminate := Ok tt; wait := Ok tt |}.

End MoreSamples.

(** ** More notions on the task queue *)

Module TasksNotions.
Import Tasks.
Local Open Scope nat_scope.

(** The futures of the units of work the worker has called, in the order
    of the calls. *)
Fixpoint begun (lg : list action) : list nat :=
  match lg with
  | [] => []
  | Began f :: r => f :: begun r
  | _ :: r => begun r
  end.

(** The worker is suspended in a unit of work. *)
Definition in_flight (l : Loop) : bool :=
  match worker_task (tm l) with
  | Some (Awaiting _) => true
  | _ => false
  end.

(** The flag [worker_running] tells that a unit is in flight. *)
Definition flag_ok (l : Loop) : Prop := worker_running (tm l) = in_flight l.

(** What holds of the queue and of the calls under every schedule, [ws]
    being the units submitted and [k] the number of those called. *)
Record fifo_core (ws : list Work) (l : Loop) : Prop := {
  fifo_length : length (futures l) = length ws;
  fifo_begun : begun (log l) = seq 0 (length (begun (log l)));
  fifo_bound : length (begun (log l)) <= length ws;
  fifo_queue :
    task_queue (tm l)
    = tasks_from (length (begun (log l)))
        (drop (length (begun (log l))) ws);
  fifo_pending :
    forall f, length (begun (log l)) <= f -> f < length ws ->
              futures l !! f = Some Pending
}.

Definition fifo (ws : list Work) (l : Loop) : Prop :=
  fifo_core ws l
  /\ forall t, worker_task (tm l) = Some (Awaiting t) ->
       length (begun (log l)) = S (snd t)
       /\ ws !! snd t = Some (fst t)
       /\ futures l !! snd t = Some Pending.

(** The states of a worker that runs the units [ws] serially, from a
    loop that already holds the futures [F] and the log [L]. *)
Inductive serial_from (F : list Future) (L : list action) (ws : list Work)
  : nat -> Loop -> Prop :=
| serial_from_scheduled (done rest : list Work) :
    ws = done ++ rest ->
    serial_from F L ws (S (length rest))
      {| tm := {| task_queue := tasks_from (length F + length done) rest;
                  worker_running := false;
                  worker_task := Some Scheduled |};
         futures := F ++ map finished done ++ map pending rest;
         log := L ++ serial_log (length F) done |}
| serial_from_awaiting (done : list Work) (w : Work) (rest : list Work) :
    ws = done ++ w :: rest ->
    serial_from F L ws (S (length rest))
      {| tm := {| task_queue := tasks_from (S (length F + length done)) rest;
                  worker_running := true;
                  worker_task := Some (Awaiting (w, length F + length done)) |};
         futures := F ++ map finished done ++ Pending :: map pending rest;
         log := (L ++ serial_log (length F) done)
                ++ [Began (length F + length done)] |}
| serial_from_idle :
    serial_from F L ws 0
      {| tm := {| task_queue := []; worker_running := false;
                  worker_task := Some Done |};
         futures := F ++ map finished ws;
         log := L ++ serial_log (length F) ws |}.

End TasksNotions.

(** ** Rendering *)

(** [ui/rendering.py], class [Rendering]: [fancy_print], which the
    executor's [_print_message] calls on the UI, and [render_output],
    which consumes what [fancy_print] produces. The two communicate
    through the queue [chat_app.buffer]; the model takes the sequence of
    the values put on it, and the sequence of the values got from it. The
    sleeps, and the wait of [fancy_print] for an empty buffer, only pace
    the two tasks. *)

Module Rendering.

(** [re.split(r'(\s+)', content)]: the runs of white space, kept because
    of the group, alternate with the texts between them; the first and
    the last element are texts, empty when [content] begins or ends with
    white space. [cur] is the element being read and [in_ws] tells that
    it is a run of white space. *)
Fixpoint re_split_ws_from (cur : string) (in_ws : bool) (s : string)
    : list string :=
  match s with
  | EmptyString => if in_ws then [cur; EmptyString] else [cur]
  | String c r =>
      if Py.isspace c then
        if in_ws
        then re_split_ws_from (String.append cur (String c EmptyString)) true r
        else cur :: re_split_ws_from (String c EmptyString) true r
      else
        if in_ws
        then cur :: re_split_ws_from (String c EmptyString) false r
        else re_split_ws_from (String.append cur (String c EmptyString)) false r
  end.

Definition re_split_ws (content : string) : list string :=
  re_split_ws_from EmptyString false content.

(** The values [fancy_print] puts on the buffer, in the order put. *)
Definition fancy_print (content : string) : list string :=
  map (fun chunk =>
         if String.eqb chunk (String Py.LF EmptyString)
         then String Py.LF EmptyString
         else chunk)
    (re_split_ws content).

(** [s.replace(old, new)] for an [old] that is not empty: the occurrences
    of [old] are taken from the left, without overlap. [skip] counts the
    characters of an occurrence still to pass. *)
Fixpoint replace_skip (old new : string) (skip : nat) (s : string) : string :=
  match s with
  | EmptyString => EmptyString
  | String c r =>
      match skip with
      | S k => replace_skip old new k r
      | O =>
          if String.prefix old s
          then String.append new
                 (replace_skip old new (String.length old - 1) r)
          else String c (replace_skip old new 0 r)
      end
  end.

Definition replace (old new s : string) : string := replace_skip old new 0 s.

(** The three replacements [render_output] applies to a chunk. *)
Definition strip_markers (chunk : string) : string :=
  replace "**" EmptyString
    (replace "####" EmptyString (replace "###" EmptyString chunk)).

(** [render_output], on the values it gets from the buffer, [None] being
    the end marker: the texts it writes to the widget, one for each
    chunk, each time the whole of the text accumulated. When the values
    run out before [None], the method is waiting for the next. *)
Fixpoint render_output_from (accumulated_text : string)
    (items : list (option string)) : list string :=
  match items with
  | [] => []
  | None :: _ => []
  | Some chunk :: rest =>
      let accumulated_text' :=
        String.append accumulated_text (strip_markers chunk) in
      accumulated_text' :: render_output_from accumulated_text' rest
  end.

Definition render_output (items : list (option string)) : list string :=
  render_output_from EmptyString items.

(** A text of white space only, and a text without white space. *)
Definition all_space (s : string) : bool :=
  forallb Py.isspace (list_ascii_of_string s).

Definition no_space (s : string) : bool :=
  forallb (fun c => negb (Py.isspace c)) (list_ascii_of_string s).

Definition no_marker_char (s : string) : bool :=
  forallb (fun c => negb (Ascii.eqb c "#"%char) && negb (Ascii.eqb c "*"%char))
    (list_ascii_of_string s).

End Rendering.

(** ** Properties of the executor *)

Module ExecutorFacts.
Import Executor.

Ltac unfold_M :=
  unfold bind, ret, throw, lift, get_self, emit, set_sudo_password,
    set_ui_pswd, history_append, update_self, when_ui, _print_message,
    record_event in *.

Lemma _get_user_input_spec prompt_text is_password input_text env w :
  exists e,
    _get_user_input prompt_text is_password input_text env w
    = (user_input env (length (prompts (trace w))), record_event w e)
    /\ is_prompt e = true.
Proof.
  unfold _get_user_input.
  destruct (ui (self w)); eexists; split; reflexivity.
Qed.

Lemma _handle_prompt_spec pid drain decoded_line env w :
  exists evs,
    snd (_handle_prompt pid drain decoded_line env w)
    = {| self := self w; trace := trace w ++ evs |}
    /\ forallb (loop_event pid) evs = true
    /\ (Py.truthy_opt (sudo_password (self w)) = true ->
        forallb (fun e => negb (is_prompt e)) evs = true).
Proof.
  unfold _handle_prompt.
  destruct (Py.contains "password:" (Py.lower decoded_line)).
  - unfold_M.
    assert (Hask : exists evs,
      snd (match _get_user_input "Enter password: " true EmptyString env w with
           | (Ok a, w') =>
               match (Ok tt, record_event w'
                         (EStdinWrite pid (String.append a (nl EmptyString))))
               with
               | (Ok _, w'') => (drain, w'')
               | (Raise e, w'') => (Raise e, w'')
               end
           | (Raise e, w') => (Raise e, w')
           end) = {| self := self w; trace := trace w ++ evs |}
      /\ forallb (loop_event pid) evs = true).
    { destruct (_get_user_input_spec "Enter password: " true EmptyString env w)
        as (e & Hin & He).
      rewrite Hin. unfold record_event.
      destruct (user_input env _); simpl.
      - exists [e; EStdinWrite pid (String.append a (nl EmptyString))].
        rewrite <- app_assoc. simpl. split; [reflexivity|].
        rewrite Nat.eqb_refl, andb_true_r.
        destruct e; simpl in *; congruence.
      - exists [e]. split; [reflexivity|].
        simpl. rewrite andb_true_r. destruct e; simpl in *; congruence. }
    destruct (sudo_password (self w)) as [pw|] eqn:Hpw.
    + destruct (Py.truthy pw) eqn:Ht; simpl.
      * exists [EStdinWrite pid (String.append pw (nl EmptyString))].
        simpl. rewrite Nat.eqb_refl. repeat split; reflexivity.
      * destruct Hask as (evs & H1 & H2). exists evs.
        repeat split; try assumption.
        intros Hc; simpl in Hc; congruence.
    + destruct Hask as (evs & H1 & H2). exists evs.
      repeat split; try assumption.
        intros Hc; simpl in Hc; congruence.
  - unfold_M. simpl.
    exists [EStdinWrite pid (String.append "yes" (nl EmptyString))].
    simpl. rewrite Nat.eqb_refl. repeat split; reflexivity.
Qed.

(** The reading loop leaves the executor object as it is, and adds to the
    trace only input requests and stdin writes; with a credential cached,
    it requests no input. *)
Lemma read_loop_spec pid script : forall output_lines env w,
  exists evs,
    snd (read_loop pid script output_lines env w)
    = {| self := self w; trace := trace w ++ evs |}
    /\ forallb (loop_event pid) evs = true
    /\ (Py.truthy_opt (sudo_password (self w)) = true ->
        forallb (fun e => negb (is_prompt e)) evs = true).
Proof.
  induction script as [|r script IH]; intros output_lines env w.
  - exists []. simpl. rewrite app_nil_r. destruct w; auto.
  - destruct r as [text drain|e].
    + simpl. destruct (_should_handle_prompt (Py.strip text)).
      * destruct (_handle_prompt_spec pid drain (Py.strip text) env w)
          as (evs1 & H1 & H2 & H3).
        destruct (_handle_prompt pid drain (Py.strip text) env w)
          as [[u|e] w'] eqn:Hh; simpl in H1; subst w'.
        -- match goal with
           | |- context [read_loop pid script ?l env ?w'] =>
               destruct (IH l env w') as (evs2 & G1 & G2 & G3)
           end.
           exists (evs1 ++ evs2). simpl in *. rewrite G1, app_assoc.
           split; [reflexivity|]. rewrite !forallb_app, H2, G2.
           split; [reflexivity|]. intros Hpw. rewrite H3, G3; auto.
        -- exists evs1. simpl. auto.
      * apply IH.
    + exists []. simpl. rewrite app_nil_r. destruct w; auto.
Qed.

(** *** Finalization *)

Lemma _finalize_command_output_spec proc command0 output_lines output0 error0
    env w :
  let output_str := final_output w output_lines output0 in
  let error_str := if Py.truthy error0 then Py.strip error0 else EmptyString in
  _finalize_command_output proc command0 output_lines output0 error0 env w
  = (Ok (if (returncode (snd proc) =? 0)%Z then output_str
         else String.append "Error: " error_str),
     finalized w {| command := command0; output := output_str;
                    error := error_str |}).
Proof. reflexivity. Qed.

Lemma slice_to_nonneg {A} (k : Z) (l : list A) :
  (0 <= k)%Z -> Py.slice_to k l = firstn (Z.to_nat k) l.
Proof.
  intros Hk. unfold Py.slice_to.
  destruct (0 <=? k)%Z eqn:E; [reflexivity|]. apply Z.leb_gt in E. lia.
Qed.

Lemma truncate_output_lines_over (limit : Z) (l : list string) :
  (0 <= limit)%Z -> (limit < Z.of_nat (length l))%Z ->
  truncate_output_lines limit l
  = firstn (Z.to_nat limit) l ++ [truncation_marker].
Proof.
  intros H0 Hlt. unfold truncate_output_lines.
  apply Z.ltb_lt in Hlt. rewrite Hlt, slice_to_nonneg by assumption.
  reflexivity.
Qed.

(** C6. When the collected output lines are more than the configured
    maximum [max_output_lines] (a count, so not negative), the finalized
    output is made of the first [max_output_lines] of them, in their
    order, followed by the one line [[Output truncated]]: that many lines
    plus one. It is what the history record holds, and what the method
    returns when the exit code is 0. *)
Theorem finalize_truncates_to_earliest_lines
    (proc : Handle) (command0 : string) (output_lines : list string)
    (output0 error0 : string) (env : Env) (w : World) :
  let limit := max_output_lines (self w) in
  let collected := collect_output_lines output_lines output0 in
  let kept := firstn (Z.to_nat limit) collected ++ [truncation_marker] in
  let res := _finalize_command_output proc command0 output_lines output0
               error0 env w in
  (0 <= limit)%Z ->
  (limit < Z.of_nat (length collected))%Z ->
  Z.of_nat (length kept) = (limit + 1)%Z
  /\ (forall i, (i < Z.to_nat limit)%nat -> kept !! i = collected !! i)
  /\ kept !! Z.to_nat limit = Some truncation_marker
  /\ option_map output (last (history (self (snd res))))
     = Some (Py.join (nl EmptyString) kept)
  /\ (returncode (snd proc) = 0%Z ->
      fst res = Ok (Py.join (nl EmptyString) kept)).
Proof.
  intros limit collected kept res H0 Hlt.
  assert (Hlen : length (firstn (Z.to_nat limit) collected) = Z.to_nat limit).
  { rewrite length_firstn. lia. }
  assert (Hout : final_output w output_lines output0
                 = Py.join (nl EmptyString) kept).
  { unfold final_output. fold limit collected.
    rewrite truncate_output_lines_over by assumption. reflexivity. }
  repeat split.
  - unfold kept. rewrite length_app, Hlen. simpl. lia.
  - intros i Hi. unfold kept.
    rewrite lookup_app_l by (rewrite Hlen; exact Hi).
    apply lookup_take_lt. exact Hi.
  - unfold kept. rewrite lookup_app_r by (rewrite Hlen; lia).
    rewrite Hlen, Nat.sub_diag. reflexivity.
  - unfold res. rewrite _finalize_command_output_spec. simpl.
    rewrite Hout, last_snoc. reflexivity.
  - intros Hrc. unfold res. rewrite _finalize_command_output_spec. simpl.
    rewrite Hrc, Hout. reflexivity.
Qed.

(** *** The three ways out of the reading loop *)

Lemma entered_loop_spec proc env w :
  exists evs,
    snd (entered_loop proc env w)
    = {| self := self w;
         trace := trace w ++ EMonitorStart (fst proc) :: evs |}
    /\ forallb (loop_event (fst proc)) evs = true
    /\ (Py.truthy_opt (sudo_password (self w)) = true ->
        forallb (fun e => negb (is_prompt e)) evs = true).
Proof.
  unfold entered_loop.
  destruct (read_loop_spec (fst proc) (stdout (snd proc)) [] env
              (record_event w (EMonitorStart (fst proc))))
    as (evs & H1 & H2 & H3).
  exists evs. rewrite H1. simpl. rewrite <- app_assoc. auto.
Qed.

(** The handler of a cancellation, by what [terminate()] and [wait()]
    do: the monitor is cancelled in each case. *)
Lemma on_cancelled_spec proc lines env w :
  then_cancel_monitor (fst proc) (on_cancelled proc lines) env w
  = match terminate (snd proc) with
    | Raise e =>
        (Raise e,
         {| self := self w;
            trace := trace w ++ [ETerminate (fst proc);
                                 EMonitorCancel (fst proc)] |})
    | Ok _ =>
        (match wait (snd proc) with
         | Ok _ => Ok (Py.join (nl EmptyString) lines)
         | Raise e => Raise e
         end,
         {| self := self w;
            trace := trace w ++ [ETerminate (fst proc); EWait (fst proc);
                                 EMonitorCancel (fst proc)] |})
    end.
Proof.
  unfold then_cancel_monitor, on_cancelled. unfold_M.
  destruct (terminate (snd proc)) as [[]|e]; simpl.
  - destruct (wait (snd proc)) as [[]|e]; simpl;
      rewrite <- !app_assoc; reflexivity.
  - rewrite <- !app_assoc. reflexivity.
Qed.

Lemma _process_command_output_cancelled proc command0 env w :
  snd (fst (entered_loop proc env w)) = Raise CancelledError ->
  _process_command_output proc command0 env w
  = then_cancel_monitor (fst proc)
      (on_cancelled proc (fst (fst (entered_loop proc env w)))) env
      (snd (entered_loop proc env w)).
Proof.
  intros Hc. unfold _process_command_output, entered_loop in *.
  unfold bind at 1. unfold emit at 1.
  destruct (read_loop _ _ _ _ _) as [[lines r] w1]. simpl in Hc. subst r.
  reflexivity.
Qed.

Lemma _process_command_output_failed proc command0 env w e :
  snd (fst (entered_loop proc env w)) = Raise e ->
  is_CancelledError e = false ->
  _process_command_output proc command0 env w
  = (Raise e,
     record_event (snd (entered_loop proc env w)) (EMonitorCancel (fst proc))).
Proof.
  intros Hc He. unfold _process_command_output, entered_loop in *.
  unfold bind at 1. unfold emit at 1.
  destruct (read_loop _ _ _ _ _) as [[lines r] w1]. simpl in Hc. subst r.
  rewrite He. reflexivity.
Qed.

Lemma _process_command_output_ended proc command0 env w out err :
  snd (fst (entered_loop proc env w)) = Ok tt ->
  communicate (snd proc) = Ok (out, err) ->
  _process_command_output proc command0 env w
  = _finalize_command_output proc command0
      (match fst (fst (entered_loop proc env w)) with
       | [] => [no_output_message]
       | l => l
       end) out err env
      (record_event
         (record_event (snd (entered_loop proc env w))
            (EMonitorCancel (fst proc)))
         (ECommunicate (fst proc))).
Proof.
  intros Hc Hcomm. unfold _process_command_output, entered_loop in *.
  unfold bind at 1. unfold emit at 1.
  destruct (read_loop _ _ _ _ _) as [[lines r] w1]. simpl in Hc. subst r.
  unfold bind at 1. unfold emit at 1.
  unfold bind at 1. unfold emit at 1.
  unfold bind at 1. unfold lift. rewrite Hcomm.
  destruct lines; reflexivity.
Qed.

Lemma loop_events_never_wait pid evs :
  forallb (loop_event pid) evs = true ->
  existsb (awaits_exit pid) evs = false
  /\ existsb (terminates pid) evs = false
  /\ forallb (fun e => negb (is_spawn e)) evs = true.
Proof.
  induction evs as [|e evs IH]; simpl; [auto|].
  intros H. apply andb_prop in H as [He H].
  destruct (IH H) as (-> & -> & ->).
  destruct e; simpl in *; try discriminate; auto.
Qed.

(** On the cancellation path, [_process_command_output] leaves the
    executor object as it found it. When [terminate()] and [wait()]
    succeed it returns the lines accumulated so far; when [terminate()]
    raises, the exception leaves the method, and [wait()] is not called. *)
Lemma _process_command_output_cancelled_frame proc command0 env w :
  snd (fst (entered_loop proc env w)) = Raise CancelledError ->
  self (snd (_process_command_output proc command0 env w)) = self w
  /\ (terminate (snd proc) = Ok tt -> wait (snd proc) = Ok tt ->
      fst (_process_command_output proc command0 env w)
      = Ok (Py.join (nl EmptyString) (fst (fst (entered_loop proc env w)))))
  /\ (forall e, terminate (snd proc) = Raise e ->
      _process_command_output proc command0 env w
      = (Raise e,
         {| self := self w;
            trace := trace (snd (entered_loop proc env w))
                     ++ [ETerminate (fst proc);
                         EMonitorCancel (fst proc)] |})).
Proof.
  intros Hc.
  rewrite (_process_command_output_cancelled _ _ _ _ Hc), on_cancelled_spec.
  destruct (entered_loop_spec proc env w) as (evs & Hw & _).
  split; [|split].
  - destruct (terminate (snd proc)); simpl; rewrite Hw; reflexivity.
  - intros -> ->. reflexivity.
  - intros e ->. rewrite Hw. reflexivity.
Qed.

(** C5, on the code as it is. When the reading loop is left by an
    exception other than [CancelledError], the method lets it through
    after cancelling the monitor only: among the calls it made there is no
    [terminate], and neither [wait] nor [communicate], for the process. *)
Theorem failing_loop_leaves_process_unattended
    (proc : Handle) (command0 : string) (env : Env) (w : World) (e : exn) :
  let loop := entered_loop proc env w in
  let res := _process_command_output proc command0 env w in
  snd (fst loop) = Raise e ->
  is_CancelledError e = false ->
  fst res = Raise e
  /\ exists evs,
       trace (snd res) = trace w ++ evs
       /\ existsb (terminates (fst proc)) evs = false
       /\ existsb (awaits_exit (fst proc)) evs = false.
Proof.
  intros loop res Hc He. unfold res.
  rewrite (_process_command_output_failed _ _ _ _ _ Hc He). simpl.
  split; [reflexivity|].
  destruct (entered_loop_spec proc env w) as (evs & -> & Hev & _). simpl.
  exists (EMonitorStart (fst proc) :: evs ++ [EMonitorCancel (fst proc)]).
  destruct (loop_events_never_wait _ _ Hev) as (Hw & Ht & _).
  rewrite <- app_assoc. simpl. rewrite !existsb_app, Hw, Ht. auto.
Qed.

(** The two other ways out do wait for the exit of the process: the
    handler of a cancellation calls [terminate()], and [wait()] when that
    call returns. *)
Lemma cancelled_loop_awaits_exit proc command0 env w :
  snd (fst (entered_loop proc env w)) = Raise CancelledError ->
  exists evs,
    trace (snd (_process_command_output proc command0 env w))
    = trace w ++ evs
    /\ existsb (terminates (fst proc)) evs = true
    /\ (forall u, terminate (snd proc) = Ok u ->
        existsb (awaits_exit (fst proc)) evs = true).
Proof.
  intros Hc.
  rewrite (_process_command_output_cancelled _ _ _ _ Hc), on_cancelled_spec.
  destruct (entered_loop_spec proc env w) as (evs & -> & _).
  destruct (terminate (snd proc)) as [u|e]; simpl.
  - eexists. rewrite <- app_assoc. split; [reflexivity|].
    simpl. rewrite !existsb_app. simpl. rewrite Nat.eqb_refl.
    rewrite !orb_true_r. auto.
  - eexists. rewrite <- app_assoc. split; [reflexivity|].
    simpl. rewrite !existsb_app. simpl. rewrite Nat.eqb_refl.
    rewrite !orb_true_r. split; [reflexivity|]. intros u Hu. discriminate.
Qed.

Lemma ended_loop_awaits_exit proc command0 env w out err :
  snd (fst (entered_loop proc env w)) = Ok tt ->
  communicate (snd proc) = Ok (out, err) ->
  exists evs,
    trace (snd (_process_command_output proc command0 env w))
    = trace w ++ evs
    /\ existsb (awaits_exit (fst proc)) evs = true.
Proof.
  intros Hc Hcomm.
  rewrite (_process_command_output_ended _ _ _ _ _ _ Hc Hcomm).
  rewrite _finalize_command_output_spec. simpl.
  destruct (entered_loop_spec proc env w) as (evs & -> & _). simpl.
  eexists. rewrite <- !app_assoc. split; [reflexivity|].
  simpl. rewrite !existsb_app. simpl. rewrite Nat.eqb_refl.
  rewrite !orb_true_r. auto.
Qed.

(** *** From [execute_command] to the spawn *)

Lemma truthy_opt_Some o :
  Py.truthy_opt o = true -> exists pw, o = Some pw /\ Py.truthy pw = true.
Proof. destruct o as [pw|]; simpl; [eauto|discriminate]. Qed.

Lemma trace_acquire command0 w : trace (acquire command0 w) = trace w.
Proof. unfold acquire. destruct (_ && _); reflexivity. Qed.

(** Where no credential has to be asked for, the command line is
    [shell_command], the credential being first taken over from the UI if
    the executor has none. *)
Lemma command_line_without_prompt command0 line env w :
  shell_command (self w) command0 = Some line ->
  command_line command0 env w = (Ok (Some line), acquire command0 w).
Proof.
  intros Hline. unfold command_line, shell_command, acquire in *.
  destruct (Py.startswith command0 "sudo"); simpl.
  - unfold available_credential in Hline.
    unfold bind at 1. unfold get_self at 1.
    destruct (Py.truthy_opt (sudo_password (self w))) eqn:Hpw; simpl.
    + unfold_M. simpl.
      destruct (truthy_opt_Some _ Hpw) as (pw & Hs & Ht).
      rewrite Hs in *. rewrite Ht.
      injection Hline as <-. reflexivity.
    + unfold _get_sudo_password.
      destruct (Py.truthy_opt (ui_pswd (self w))) eqn:Hui;
        [|discriminate].
      destruct (truthy_opt_Some _ Hui) as (pw & Hs & Ht).
      unfold_M. simpl. rewrite Hui. simpl. rewrite Hs in *. rewrite Ht.
      injection Hline as <-. reflexivity.
  - injection Hline as <-. reflexivity.
Qed.

Lemma execute_command_unfold command0 env w :
  Py.truthy command0 = true ->
  execute_command command0 env w
  = match command_line command0 env w with
    | (Ok (Some l), w') => spawn_and_process l env w'
    | (Ok None, w') => (Ok None, w')
    | (Raise e, w') => (Raise e, w')
    end.
Proof.
  intros Hc. unfold execute_command. rewrite Hc. simpl. unfold bind at 1.
  destruct (command_line command0 env w) as [[[l|]|e] w']; reflexivity.
Qed.

Lemma execute_command_runs command0 line env w :
  Py.truthy command0 = true ->
  shell_command (self w) command0 = Some line ->
  execute_command command0 env w
  = spawn_and_process line env (acquire command0 w).
Proof.
  intros Hc Hline.
  rewrite (execute_command_unfold _ _ _ Hc).
  rewrite (command_line_without_prompt _ _ _ _ Hline). reflexivity.
Qed.

(** [_start_subprocess] returns a process or raises: never [None]. *)
Lemma _start_subprocess_spec cmd env w :
  _start_subprocess cmd env w
  = (match create_subprocess_shell env (length (spawns (trace w))) cmd with
     | Ok p => Ok (Some (length (spawns (trace w)), p))
     | Raise e => Raise e
     end, record_event w (ESpawn cmd)).
Proof.
  unfold _start_subprocess. destruct (create_subprocess_shell _ _ _); auto.
Qed.

Lemma _start_subprocess_never_None cmd env w :
  fst (_start_subprocess cmd env w) <> Ok None.
Proof.
  rewrite _start_subprocess_spec. simpl.
  destruct (create_subprocess_shell _ _ _); discriminate.
Qed.

(** *** What the credential phase leaves untouched *)

Create HintDb frame.

Lemma keeps_frame_ret {A} (a : A) : keeps_frame (ret a).
Proof. split; reflexivity. Qed.

Lemma keeps_frame_throw {A} (e : exn) : keeps_frame (@throw A e).
Proof. split; reflexivity. Qed.

Lemma keeps_frame_lift {A} (r : result A) : keeps_frame (lift r).
Proof. split; reflexivity. Qed.

Lemma keeps_frame_get_self : keeps_frame get_self.
Proof. split; reflexivity. Qed.

Lemma keeps_frame_emit e : keeps_frame (emit e).
Proof. split; reflexivity. Qed.

Lemma keeps_frame_set_sudo_password v : keeps_frame (set_sudo_password v).
Proof. split; reflexivity. Qed.

Lemma keeps_frame_set_ui_pswd v : keeps_frame (set_ui_pswd v).
Proof. split; reflexivity. Qed.

Lemma keeps_frame_bind {A B} (m : M A) (k : A -> M B) :
  keeps_frame m -> (forall a, keeps_frame (k a)) -> keeps_frame (bind m k).
Proof.
  intros Hm Hk env w. unfold bind.
  specialize (Hm env w).
  destruct (m env w) as [[a|e] w1]; simpl in *; [|exact Hm].
  specialize (Hk a env w1). destruct Hm as [H1 H2], Hk as [H3 H4].
  split; congruence.
Qed.

Lemma keeps_frame_get_user_input p b t : keeps_frame (_get_user_input p b t).
Proof. split; reflexivity. Qed.

Lemma keeps_frame_start_subprocess cmd : keeps_frame (_start_subprocess cmd).
Proof.
  intros env w. rewrite _start_subprocess_spec. split; reflexivity.
Qed.

#[local] Hint Resolve keeps_frame_ret keeps_frame_throw keeps_frame_lift
  keeps_frame_get_self keeps_frame_emit keeps_frame_set_sudo_password
  keeps_frame_set_ui_pswd keeps_frame_get_user_input
  keeps_frame_start_subprocess : frame.

Ltac frame_step :=
  match goal with
  | |- keeps_frame (bind _ _) => apply keeps_frame_bind; [|intros ?]
  | |- keeps_frame (match ?x with _ => _ end) => destruct x
  | |- keeps_frame (if ?x then _ else _) => destruct x
  | |- keeps_frame _ => solve [auto with frame]
  end.

Lemma keeps_frame_print_message msg : keeps_frame (_print_message msg).
Proof. unfold _print_message. repeat frame_step. Qed.

Lemma keeps_frame_validate pw : keeps_frame (_validate_sudo_password pw).
Proof. unfold _validate_sudo_password. repeat frame_step. Qed.

Lemma keeps_frame_get_sudo_password : keeps_frame _get_sudo_password.
Proof.
  pose proof keeps_frame_validate. pose proof keeps_frame_print_message.
  unfold _get_sudo_password, when_ui. repeat frame_step.
Qed.

Lemma keeps_frame_command_line command0 :
  keeps_frame (command_line command0).
Proof.
  pose proof keeps_frame_get_sudo_password.
  unfold command_line. repeat frame_step.
Qed.

Lemma spawn_and_process_started line env w p :
  create_subprocess_shell env (length (spawns (trace w))) line = Ok p ->
  spawn_and_process line env w
  = match _process_command_output (length (spawns (trace w)), p) line env
            (record_event w (ESpawn line)) with
    | (Ok out, w2) => (Ok (Some out), w2)
    | (Raise e, w2) => (Raise e, w2)
    end.
Proof.
  intros Hspawn. unfold spawn_and_process. unfold bind at 1.
  rewrite _start_subprocess_spec, Hspawn. reflexivity.
Qed.

(** C1, on the code as it is. When [asyncio.create_subprocess_shell]
    raises for the command line of a command, [execute_command] lets the
    exception through to its caller: it returns no string. *)
Theorem execute_command_lets_spawn_failure_through
    (command0 line : string) (env : Env) (w w' : World) (e : exn) :
  Py.truthy command0 = true ->
  command_line command0 env w = (Ok (Some line), w') ->
  create_subprocess_shell env (length (spawns (trace w'))) line = Raise e ->
  fst (execute_command command0 env w) = Raise e.
Proof.
  intros Hc Hline Hspawn.
  rewrite (execute_command_unfold _ _ _ Hc), Hline.
  unfold spawn_and_process, bind.
  rewrite _start_subprocess_spec, Hspawn. reflexivity.
Qed.

(** C7. A command whose process gives no line on stdout, nothing more to
    [communicate()], and exit code 0, makes [execute_command] return the
    fixed message [No output received. ...], which is not the empty
    string, provided the configured line limit allows one line. The
    command is any for which [execute_command] gets to spawn a process,
    [line] being the command line it hands to the shell. *)
Theorem silent_command_returns_no_output_message
    (command0 line err : string) (env : Env) (w w' : World) (p : Process) :
  Py.truthy command0 = true ->
  command_line command0 env w = (Ok (Some line), w') ->
  create_subprocess_shell env (length (spawns (trace w'))) line = Ok p ->
  stdout p = [] ->
  communicate p = Ok (EmptyString, err) ->
  returncode p = 0%Z ->
  (1 <= max_output_lines (self w))%Z ->
  fst (execute_command command0 env w) = Ok (Some no_output_message)
  /\ no_output_message <> EmptyString.
Proof.
  intros Hc Hline Hspawn Hout Hcomm Hrc Hmax.
  split; [|discriminate].
  rewrite (execute_command_unfold _ _ _ Hc), Hline.
  unfold spawn_and_process. unfold bind at 1.
  rewrite _start_subprocess_spec, Hspawn.
  set (h := (length (spawns (trace w')), p)).
  set (w1 := record_event w' (ESpawn line)).
  assert (Hloop : entered_loop h env w1
                  = (([], Ok tt), record_event w1 (EMonitorStart (fst h)))).
  { unfold entered_loop. simpl. rewrite Hout. reflexivity. }
  assert (Hmax1 : max_output_lines (self w1) = max_output_lines (self w)).
  { pose proof (keeps_frame_command_line command0 env w) as [_ Hk].
    rewrite Hline in Hk. exact Hk. }
  unfold bind.
  rewrite (_process_command_output_ended h line env w1 EmptyString err)
    by (rewrite ?Hloop; first [reflexivity | exact Hcomm]).
  rewrite _finalize_command_output_spec, Hloop. simpl.
  rewrite Hrc. simpl. unfold final_output. simpl.
  unfold truncate_output_lines. simpl.
  change (max_output_lines (self w')) with (max_output_lines (self w1)).
  rewrite Hmax1. simpl.
  change (Z.of_nat 1) with 1%Z.
  destruct (max_output_lines (self w) <? 1)%Z eqn:E;
    [apply Z.ltb_lt in E; lia|]. reflexivity.
Qed.

(** C8. When the command is not empty and the human returns the empty
    string from the confirmation field, [start] returns [(None, None)] and
    the executor object, its [history] with it, is unchanged. *)
Theorem start_declined_returns_none_pair
    (c : string) (env : Env) (w : World) :
  Py.truthy c = true ->
  user_input env (length (prompts (trace w))) = Ok EmptyString ->
  fst (start (Some c) env w) = Ok (None, None)
  /\ history (self (snd (start (Some c) env w))) = history (self w)
  /\ self (snd (start (Some c) env w)) = self w.
Proof.
  intros Hc Hin.
  destruct (_get_user_input_spec confirmation_prompt false (Py.lstrip c)
              env w) as (e & He & _).
  assert (Hs : start (Some c) env w = (Ok (None, None), record_event w e)).
  { unfold start, confirm_execute_command, bind.
    rewrite Hc, He, Hin. reflexivity. }
  rewrite Hs. simpl. auto.
Qed.

(** When [execute_command] has spawned the process of a command, the
    reading loop is left by [CancelledError], and [terminate()] and
    [wait()] succeed, the method returns the lines accumulated so far,
    joined, and nothing else: no record is appended to [history], and the
    executor object, the cached credential included, is as it was at the
    spawn. *)
Lemma cancelled_loop_returns_lines
    (command0 line : string) (env : Env) (w w' : World) (p : Process) :
  let proc := (length (spawns (trace w')), p) in
  let loop := entered_loop proc env (record_event w' (ESpawn line)) in
  let res := execute_command command0 env w in
  Py.truthy command0 = true ->
  command_line command0 env w = (Ok (Some line), w') ->
  create_subprocess_shell env (length (spawns (trace w'))) line = Ok p ->
  snd (fst loop) = Raise CancelledError ->
  terminate p = Ok tt ->
  wait p = Ok tt ->
  fst res = Ok (Some (Py.join (nl EmptyString) (fst (fst loop))))
  /\ history (self (snd res)) = history (self w)
  /\ self (snd res) = self w'.
Proof.
  intros proc loop res Hc Hline Hspawn Hcancel Hterm Hwait. unfold res.
  rewrite (execute_command_unfold _ _ _ Hc), Hline.
  rewrite (spawn_and_process_started _ _ _ _ Hspawn). fold proc.
  destruct (_process_command_output_cancelled_frame proc line env
              (record_event w' (ESpawn line)) Hcancel) as (Hself & Hres & _).
  specialize (Hres Hterm Hwait).
  destruct (_process_command_output proc line env _) as [[out|e] w2];
    simpl in Hres, Hself; [|discriminate].
  injection Hres as ->.
  pose proof (keeps_frame_command_line command0 env w) as [Hh _].
  rewrite Hline in Hh. simpl in Hh.
  cbn [fst snd]. rewrite Hself. auto.
Qed.

(** C9, on the code as it is. When [execute_command] has spawned the
    process of a command, the reading loop is left by [CancelledError],
    and [proc.terminate()] raises, as it does with [ProcessLookupError]
    once the child has exited, the method does not return the lines
    accumulated: the exception of [terminate()] leaves [execute_command],
    after the monitor is cancelled; [wait()] is not called. No record is
    appended to [history] and the executor object, the cached credential
    included, is as it was at the spawn. *)
Theorem cancelled_loop_raises_once_child_has_exited
    (command0 line : string) (env : Env) (w w' : World) (p : Process)
    (e : exn) :
  let proc := (length (spawns (trace w')), p) in
  let loop := entered_loop proc env (record_event w' (ESpawn line)) in
  let res := execute_command command0 env w in
  Py.truthy command0 = true ->
  command_line command0 env w = (Ok (Some line), w') ->
  create_subprocess_shell env (length (spawns (trace w'))) line = Ok p ->
  snd (fst loop) = Raise CancelledError ->
  terminate p = Raise e ->
  fst res = Raise e
  /\ trace (snd res)
     = trace (snd loop) ++ [ETerminate (fst proc); EMonitorCancel (fst proc)]
  /\ history (self (snd res)) = history (self w)
  /\ self (snd res) = self w'.
Proof.
  intros proc loop res Hc Hline Hspawn Hcancel Hterm. unfold res.
  rewrite (execute_command_unfold _ _ _ Hc), Hline.
  rewrite (spawn_and_process_started _ _ _ _ Hspawn). fold proc.
  destruct (_process_command_output_cancelled_frame proc line env
              (record_event w' (ESpawn line)) Hcancel) as (_ & _ & Hres).
  rewrite (Hres e Hterm). fold loop.
  pose proof (keeps_frame_command_line command0 env w) as [Hh _].
  rewrite Hline in Hh. simpl in Hh.
  cbn [fst snd self trace record_event]. auto.
Qed.

(** *** What a run of a command adds to the trace *)

Lemma _process_command_output_trace proc command0 env w :
  exists evs,
    trace (snd (_process_command_output proc command0 env w)) = trace w ++ evs
    /\ forallb (fun e => negb (is_spawn e)) evs = true
    /\ (Py.truthy_opt (sudo_password (self w)) = true ->
        forallb (fun e => negb (is_prompt e)) evs = true).
Proof.
  destruct (entered_loop_spec proc env w) as (evs & Hw & Hev & Hpr).
  destruct (loop_events_never_wait _ _ Hev) as (_ & _ & Hsp).
  unfold _process_command_output. unfold bind at 1. unfold emit at 1.
  fold (entered_loop proc env w).
  destruct (entered_loop proc env w) as [[lines [[]|e]] w1];
    simpl in Hw; subst w1.
  - destruct (communicate (snd proc)) as [[out err]|e] eqn:Hcomm.
    + exists (EMonitorStart (fst proc) :: evs
              ++ [EMonitorCancel (fst proc); ECommunicate (fst proc)]).
      unfold bind at 1. unfold emit at 1.
      unfold bind at 1. unfold emit at 1.
      unfold bind at 1. unfold lift at 1.
      rewrite _finalize_command_output_spec. simpl.
      rewrite <- !app_assoc. simpl.
      split; [reflexivity|]. rewrite !forallb_app, Hsp. simpl.
      split; [reflexivity|]. intros H. rewrite (Hpr H). reflexivity.
    + exists (EMonitorStart (fst proc) :: evs
              ++ [EMonitorCancel (fst proc); ECommunicate (fst proc)]).
      unfold_M. simpl.
      rewrite <- !app_assoc. simpl.
      split; [reflexivity|]. rewrite !forallb_app, Hsp. simpl.
      split; [reflexivity|]. intros H. rewrite (Hpr H). reflexivity.
  - destruct (is_CancelledError e).
    + rewrite on_cancelled_spec.
      destruct (terminate (snd proc)) as [u|e'].
      * exists (EMonitorStart (fst proc) :: evs
                ++ [ETerminate (fst proc); EWait (fst proc);
                    EMonitorCancel (fst proc)]).
        simpl. rewrite <- !app_assoc. simpl.
        split; [reflexivity|]. rewrite !forallb_app, Hsp. simpl.
        split; [reflexivity|]. intros H. rewrite (Hpr H). reflexivity.
      * exists (EMonitorStart (fst proc) :: evs
                ++ [ETerminate (fst proc); EMonitorCancel (fst proc)]).
        simpl. rewrite <- !app_assoc. simpl.
        split; [reflexivity|]. rewrite !forallb_app, Hsp. simpl.
        split; [reflexivity|]. intros H. rewrite (Hpr H). reflexivity.
    + exists (EMonitorStart (fst proc) :: evs ++ [EMonitorCancel (fst proc)]).
      unfold_M. simpl. rewrite <- !app_assoc. simpl.
      split; [reflexivity|]. rewrite !forallb_app, Hsp. simpl.
      split; [reflexivity|]. intros H. rewrite (Hpr H). reflexivity.
Qed.

Lemma spawn_and_process_trace line env w :
  exists evs,
    trace (snd (spawn_and_process line env w)) = trace w ++ ESpawn line :: evs
    /\ forallb (fun e => negb (is_spawn e)) evs = true
    /\ (Py.truthy_opt (sudo_password (self w)) = true ->
        forallb (fun e => negb (is_prompt e)) evs = true).
Proof.
  unfold spawn_and_process. unfold bind at 1.
  rewrite _start_subprocess_spec.
  destruct (create_subprocess_shell _ _ _) as [p|e].
  - destruct (_process_command_output_trace (length (spawns (trace w)), p)
                line env (record_event w (ESpawn line)))
      as (evs & Ht & Hs & Hp).
    exists evs. unfold bind.
    destruct (_process_command_output _ _ _ _) as [[out|e] w2];
      simpl in *; rewrite Ht, <- app_assoc; auto.
  - exists []. simpl. auto.
Qed.

Lemma filter_no_match {A} (f : A -> bool) (l : list A) :
  forallb (fun x => negb (f x)) l = true -> List.filter f l = [].
Proof.
  induction l as [|x l IH]; simpl; [reflexivity|].
  intros H. apply andb_prop in H as [Hx H].
  destruct (f x); [discriminate|]. auto.
Qed.

Lemma prefix_append (p b : string) : String.prefix p (String.append p b) = true.
Proof.
  induction p as [|c p IH]; simpl.
  - destruct b; reflexivity.
  - destruct (ascii_dec c c); [exact IH|congruence].
Qed.

Lemma contains_prefix (kw s : string) :
  String.prefix kw s = true -> Py.contains kw s = true.
Proof.
  intros H.
  replace (Py.contains kw s)
    with (String.prefix kw s
          || match s with
             | EmptyString => false
             | String _ r => Py.contains kw r
             end) by (destruct s; reflexivity).
  rewrite H. reflexivity.
Qed.

Lemma contains_append (a p b : string) :
  Py.contains p (String.append a (String.append p b)) = true.
Proof.
  induction a as [|c a IH]; simpl.
  - apply contains_prefix, prefix_append.
  - rewrite IH. apply orb_true_r.
Qed.

(** C3, as the code has it. For a command that starts with [sudo] and a
    cached credential that is not empty, [execute_command] makes one
    subprocess-spawn call, and the command line it hands over is the text
    [echo ], the credential as it is, without quoting, [ | sudo -S ], and
    the command from its sixth character. The credential so stands in the
    spawned command line itself, which is an argument of the shell that
    [asyncio.create_subprocess_shell] runs. How the shell reads that line
    is outside the executor, and nothing is stated about it. *)
Theorem sudo_command_line_carries_credential
    (command0 pw : string) (env : Env) (w : World) :
  Py.startswith command0 "sudo" = true ->
  sudo_password (self w) = Some pw ->
  Py.truthy pw = true ->
  spawns (trace (snd (execute_command command0 env w)))
  = spawns (trace w) ++ [ESpawn (sudo_command pw command0)]
  /\ sudo_command pw command0
     = String.append "echo "
         (String.append pw
            (String.append " | sudo -S " (Py.slice_from 5 command0)))
  /\ on_argument_list pw (shell_argv (sudo_command pw command0)) = true.
Proof.
  intros Hsudo Hpw Ht.
  assert (Hc : Py.truthy command0 = true).
  { destruct command0; [discriminate|reflexivity]. }
  assert (Hav : available_credential (self w) = Some pw).
  { unfold available_credential. rewrite Hpw. simpl. rewrite Ht. reflexivity. }
  assert (Hline : shell_command (self w) command0
                  = Some (sudo_command pw command0)).
  { unfold shell_command. rewrite Hsudo, Hav. reflexivity. }
  assert (Hacq : acquire command0 w = w).
  { unfold acquire. rewrite Hsudo, Hpw. simpl. rewrite Ht. reflexivity. }
  repeat split.
  - rewrite (execute_command_runs _ _ _ _ Hc Hline), Hacq.
    destruct (spawn_and_process_trace (sudo_command pw command0) env w)
      as (evs & -> & Hs & _).
    unfold spawns. rewrite List.filter_app. simpl.
    rewrite (filter_no_match _ _ Hs). reflexivity.
  - unfold on_argument_list, shell_argv. cbn [existsb].
    unfold sudo_command. rewrite (contains_append "echo " pw).
    rewrite !orb_true_r. reflexivity.
Qed.

(** C10. [_clear_sudo_password] sets the executor's own [sudo_password]
    to [None] and changes nothing else: the UI, and the credential it
    keeps in [pswd], are as before. A later [execute_command] of a sudo
    command then takes the credential back from [ui.pswd]: it asks the
    user nothing, and the command line it spawns is built with that
    credential. *)
Theorem clearing_keeps_ui_credential
    (command0 pw : string) (u : UI) (env : Env) (w : World) :
  ui (self w) = Some u ->
  pswd u = Some pw ->
  Py.truthy pw = true ->
  Py.startswith command0 "sudo" = true ->
  let w1 := snd (_clear_sudo_password env w) in
  let w2 := snd (execute_command command0 env w1) in
  self w1 = with_sudo_password None (self w)
  /\ ui (self w1) = Some u
  /\ trace w1 = trace w
  /\ prompts (trace w2) = prompts (trace w)
  /\ spawns (trace w2) = spawns (trace w) ++ [ESpawn (sudo_command pw command0)].
Proof.
  intros Hui Hps Ht Hsudo w1 w2.
  assert (Hw1 : w1 = {| self := with_sudo_password None (self w);
                        trace := trace w |}) by reflexivity.
  assert (Hc : Py.truthy command0 = true).
  { destruct command0; [discriminate|reflexivity]. }
  assert (Hup : ui_pswd (self w1) = Some pw).
  { rewrite Hw1. unfold ui_pswd. simpl. rewrite Hui. exact Hps. }
  assert (Hline : shell_command (self w1) command0
                  = Some (sudo_command pw command0)).
  { unfold shell_command, available_credential.
    rewrite Hsudo, Hup, Hw1. simpl. rewrite Ht. reflexivity. }
  assert (Hacq : acquire command0 w1
                 = {| self := with_sudo_password (Some pw) (self w1);
                      trace := trace w |}).
  { unfold acquire. rewrite Hsudo, Hup, Hw1. reflexivity. }
  repeat split.
  - rewrite Hw1. simpl. exact Hui.
  - unfold w2. rewrite (execute_command_runs _ _ _ _ Hc Hline), Hacq.
    match goal with
    | |- context [spawn_and_process ?l env ?w0] =>
        destruct (spawn_and_process_trace l env w0) as (evs & -> & _ & Hp)
    end.
    simpl. unfold prompts. rewrite List.filter_app. simpl.
    rewrite (filter_no_match _ _ (Hp Ht)). apply app_nil_r.
  - unfold w2. rewrite (execute_command_runs _ _ _ _ Hc Hline), Hacq.
    match goal with
    | |- context [spawn_and_process ?l env ?w0] =>
        destruct (spawn_and_process_trace l env w0) as (evs & -> & Hs & _)
    end.
    simpl. unfold spawns. rewrite List.filter_app. simpl.
    rewrite (filter_no_match _ _ Hs). reflexivity.
Qed.

(** *** The statements at concrete inputs *)

Lemma execute_command_lets_spawn_failure_through_witness :
  fst (execute_command "ls -la" Samples.env_spawn_fails Samples.fresh)
  = Raise (OSError "[Errno 24] Too many open files").
Proof.
  apply (execute_command_lets_spawn_failure_through "ls -la" "ls -la"
           Samples.env_spawn_fails Samples.fresh Samples.fresh);
    reflexivity.
Defined.

Lemma sudo_command_line_carries_credential_witness :
  spawns (trace (snd (execute_command "sudo ls" (Samples.env_of Samples.quiet)
                        (Samples.fresh_with_ui "hunter2"))))
  = [ESpawn "echo hunter2 | sudo -S ls"]
  /\ sudo_command "hunter2" "sudo ls" = "echo hunter2 | sudo -S ls"
  /\ on_argument_list "hunter2" (shell_argv (sudo_command "hunter2" "sudo ls"))
     = true.
Proof.
  apply (sudo_command_line_carries_credential "sudo ls" "hunter2"
           (Samples.env_of Samples.quiet) (Samples.fresh_with_ui "hunter2"));
    reflexivity.
Defined.

(** C3 as stated fails: with the credential [hunter2] cached, the command
    line spawned for [sudo ls] is [echo hunter2 | sudo -S ls], and the
    secret is read off the argument list of the shell that runs it. *)
Lemma sudo_credential_is_on_argument_list :
  spawns (trace (snd (execute_command "sudo ls" (Samples.env_of Samples.quiet)
                        (Samples.fresh_with_ui "hunter2"))))
  = [ESpawn "echo hunter2 | sudo -S ls"]
  /\ shell_argv "echo hunter2 | sudo -S ls"
     = ["/bin/sh"; "-c"; "echo hunter2 | sudo -S ls"]
  /\ on_argument_list "hunter2" (shell_argv "echo hunter2 | sudo -S ls")
     = true.
Proof. repeat split; vm_compute; reflexivity. Qed.

Lemma failing_loop_leaves_process_unattended_witness :
  fst (_process_command_output (0, Samples.overlong_line) "yes"
         (Samples.env_of Samples.overlong_line) Samples.fresh)
  = Raise (ValueError "Separator is not found, and chunk exceed the limit")
  /\ exists evs,
       trace (snd (_process_command_output (0, Samples.overlong_line) "yes"
                     (Samples.env_of Samples.overlong_line) Samples.fresh))
       = trace Samples.fresh ++ evs
       /\ existsb (terminates 0) evs = false
       /\ existsb (awaits_exit 0) evs = false.
Proof.
  apply (failing_loop_leaves_process_unattended (0, Samples.overlong_line)
           "yes" (Samples.env_of Samples.overlong_line) Samples.fresh);
    reflexivity.
Defined.

Lemma finalize_truncates_to_earliest_lines_witness :
  fst (_finalize_command_output (0, Samples.three_lines) "seq 3"
         ["one"; "two"; "three"] EmptyString EmptyString
         (Samples.env_of Samples.three_lines) Samples.fresh)
  = Ok (String.append "one" (nl (String.append "two" (nl "[Output truncated]")))).
Proof.
  assert (H0 : (0 <= 2)%Z) by lia.
  assert (H1 : (2 < 3)%Z) by lia.
  destruct (finalize_truncates_to_earliest_lines (0, Samples.three_lines)
              "seq 3" ["one"; "two"; "three"] EmptyString EmptyString
              (Samples.env_of Samples.three_lines) Samples.fresh H0 H1)
    as (_ & _ & _ & _ & H).
  exact (H eq_refl).
Defined.

Lemma silent_command_returns_no_output_message_witness :
  fst (execute_command "sudo true"
         (Samples.env_answering "hunter2" Samples.quiet)
         Samples.fresh_with_empty_ui)
  = Ok (Some no_output_message).
Proof.
  apply (silent_command_returns_no_output_message "sudo true"
           "echo hunter2 | sudo -S true" EmptyString
           (Samples.env_answering "hunter2" Samples.quiet)
           Samples.fresh_with_empty_ui
           (snd (command_line "sudo true"
                   (Samples.env_answering "hunter2" Samples.quiet)
                   Samples.fresh_with_empty_ui))
           Samples.quiet);
    try reflexivity.
  vm_compute. discriminate.
Defined.

Lemma start_declined_returns_none_pair_witness :
  fst (start (Some "rm -rf build") (Samples.env_of Samples.quiet) Samples.fresh)
  = Ok (None, None)
  /\ history (self (snd (start (Some "rm -rf build")
                          (Samples.env_of Samples.quiet) Samples.fresh)))
     = [].
Proof.
  destruct (start_declined_returns_none_pair "rm -rf build"
              (Samples.env_of Samples.quiet) Samples.fresh eq_refl eq_refl)
    as (H1 & H2 & _).
  split; [exact H1 | exact H2].
Defined.

Lemma cancelled_loop_raises_once_child_has_exited_witness :
  let res := execute_command "echo Password:"
               (Samples.env_cancelled_at_input Samples.asks_and_exits)
               Samples.fresh_with_empty_ui in
  fst res = Raise ProcessLookupError
  /\ trace (snd res)
     = [ESpawn "echo Password:"; EMonitorStart 0;
        EPrompt "Enter password: " true EmptyString;
        ETerminate 0; EMonitorCancel 0]
  /\ history (self (snd res)) = [].
Proof.
  destruct (cancelled_loop_raises_once_child_has_exited "echo Password:"
              "echo Password:"
              (Samples.env_cancelled_at_input Samples.asks_and_exits)
              Samples.fresh_with_empty_ui Samples.fresh_with_empty_ui
              Samples.asks_and_exits ProcessLookupError
              eq_refl eq_refl eq_refl eq_refl eq_refl)
    as (H1 & H2 & H3 & _).
  split; [exact H1 | split; [exact H2 | exact H3]].
Defined.

(** A run cancelled after two lines while the child is still running:
    the two lines are returned. *)
Lemma cancelled_loop_returns_lines_example :
  let res := execute_command "sudo seq 3"
               (Samples.env_of Samples.cancelled_after_two)
               (Samples.fresh_with_ui "hunter2") in
  fst res = Ok (Some (String.append "one" (nl "two")))
  /\ history (self (snd res)) = []
  /\ sudo_password (self (snd res)) = Some "hunter2".
Proof.
  destruct (cancelled_loop_returns_lines "sudo seq 3"
              "echo hunter2 | sudo -S seq 3"
              (Samples.env_of Samples.cancelled_after_two)
              (Samples.fresh_with_ui "hunter2")
              (Samples.fresh_with_ui "hunter2")
              Samples.cancelled_after_two
              eq_refl eq_refl eq_refl eq_refl eq_refl eq_refl)
    as (H1 & H2 & H3).
  cbv zeta. rewrite H3. split; [exact H1 | split; [exact H2 | reflexivity]].
Qed.

Lemma clearing_keeps_ui_credential_witness :
  let w1 := snd (_clear_sudo_password (Samples.env_of Samples.quiet)
                   (Samples.fresh_with_ui "hunter2")) in
  let w2 := snd (execute_command "sudo ls" (Samples.env_of Samples.quiet) w1) in
  sudo_password (self w1) = None
  /\ ui (self w1) = Some {| pswd := Some "hunter2" |}
  /\ prompts (trace w2) = []
  /\ spawns (trace w2) = [ESpawn "echo hunter2 | sudo -S ls"].
Proof.
  destruct (clearing_keeps_ui_credential "sudo ls" "hunter2"
              {| pswd := Some "hunter2" |} (Samples.env_of Samples.quiet)
              (Samples.fresh_with_ui "hunter2")
              eq_refl eq_refl eq_refl eq_refl)
    as (H1 & H2 & H3 & H4 & H5).
  intros w1 w2.
  split; [unfold w1; rewrite H1; reflexivity|].
  split; [exact H2|]. split; [exact H4 | exact H5].
Defined.

End ExecutorFacts.

(** ** Properties of the task queue *)

Module TasksFacts.
Import Tasks.
Local Open Scope nat_scope.

Lemma run_steps_app es1 es2 l :
  run_steps (es1 ++ es2) l = run_steps es2 (run_steps es1 l).
Proof. unfold run_steps. apply fold_left_app. Qed.

Lemma submitted_app es1 es2 :
  submitted (es1 ++ es2) = submitted es1 ++ submitted es2.
Proof.
  induction es1 as [|e es1 IH]; simpl; [reflexivity|].
  destruct e; try assumption.
  destruct (accepted w); simpl; congruence.
Qed.

Lemma serial_log_app ws1 ws2 i :
  serial_log i (ws1 ++ ws2)
  = serial_log i ws1 ++ serial_log (i + length ws1) ws2.
Proof.
  revert i. induction ws1 as [|w ws1 IH]; intros i; simpl.
  - rewrite Nat.add_0_r. reflexivity.
  - rewrite IH.
    replace (S i + length ws1) with (i + S (length ws1)) by lia.
    reflexivity.
Qed.

Lemma tasks_from_app ws1 ws2 i :
  tasks_from i (ws1 ++ ws2)
  = tasks_from i ws1 ++ tasks_from (i + length ws1) ws2.
Proof.
  revert i. induction ws1 as [|w ws1 IH]; intros i; simpl.
  - rewrite Nat.add_0_r. reflexivity.
  - rewrite IH.
    replace (S i + length ws1) with (i + S (length ws1)) by lia.
    reflexivity.
Qed.

(** *** Schedules without [stop] *)

(** The states of a loop whose worker was never cancelled and whose units
    of work all settle, [ws] being the units submitted so far. The number
    is that of the runs the worker still needs to become idle. *)
Inductive serial (ws : list Work) : nat -> Loop -> Prop :=
| serial_scheduled (done rest : list Work) :
    ws = done ++ rest ->
    serial ws (S (length rest))
      {| tm := {| task_queue := tasks_from (length done) rest;
                  worker_running := false;
                  worker_task := Some Scheduled |};
         futures := map finished done ++ map pending rest;
         log := serial_log 0 done |}
| serial_awaiting (done : list Work) (w : Work) (rest : list Work) :
    ws = done ++ w :: rest ->
    serial ws (S (length rest))
      {| tm := {| task_queue := tasks_from (S (length done)) rest;
                  worker_running := true;
                  worker_task := Some (Awaiting (w, length done)) |};
         futures := map finished done ++ Pending :: map pending rest;
         log := serial_log 0 done ++ [Began (length done)] |}
| serial_idle (t : option AsyncTask) :
    t = None \/ t = Some Done ->
    serial ws 0
      {| tm := {| task_queue := []; worker_running := false;
                  worker_task := t |};
         futures := map finished ws;
         log := serial_log 0 ws |}.

Lemma serial_init : serial [] 0 init.
Proof. apply (serial_idle [] None). auto. Qed.

Lemma serial_bound ws n l : serial ws n l -> n <= S (length ws).
Proof.
  destruct 1 as [done rest ->|done w rest ->|t _];
    rewrite ?length_app; simpl; lia.
Qed.

Lemma serial_enqueue ws n l w :
  accepted w = true ->
  serial ws n l ->
  exists n', serial (ws ++ [w]) n' (snd (enqueue w l)).
Proof.
  intros Hacc H. unfold accepted in Hacc. apply andb_prop in Hacc as [Hc Hb].
  unfold binds in Hb. destruct (bind_error w) eqn:Hbe; [discriminate|].
  unfold enqueue. rewrite Hc, Hbe.
  destruct H as [done rest ->|done w0 rest ->|t Ht]; cbn.
  - exists (S (length (rest ++ [w]))).
    replace (length (map finished done ++ map pending rest))
      with (length done + length rest)
      by (rewrite length_app, !length_map; reflexivity).
    replace (tasks_from (length done) rest ++ [(w, length done + length rest)])
      with (tasks_from (length done) (rest ++ [w]))
      by (rewrite tasks_from_app; reflexivity).
    replace ((map finished done ++ map pending rest) ++ [Pending])
      with (map finished done ++ map pending (rest ++ [w]))
      by (rewrite map_app, app_assoc; reflexivity).
    apply serial_scheduled. rewrite app_assoc. reflexivity.
  - exists (S (length (rest ++ [w]))).
    replace (length (map finished done ++ Pending :: map pending rest))
      with (S (length done) + length rest)
      by (rewrite length_app, length_map; simpl; rewrite length_map; lia).
    replace (tasks_from (S (length done)) rest
             ++ [(w, S (length done) + length rest)])
      with (tasks_from (S (length done)) (rest ++ [w]))
      by (rewrite tasks_from_app; reflexivity).
    replace ((map finished done ++ Pending :: map pending rest) ++ [Pending])
      with (map finished done ++ Pending :: map pending (rest ++ [w]))
      by (rewrite map_app, <- app_assoc; reflexivity).
    apply serial_awaiting. rewrite <- app_assoc. reflexivity.
  - exists (S (length [w])). rewrite length_map.
    replace (map finished ws ++ [Pending])
      with (map finished ws ++ map pending [w]) by reflexivity.
    replace (start {| task_queue := [(w, length ws)];
                      worker_running := false; worker_task := t |})
      with {| task_queue := tasks_from (length ws) [w];
              worker_running := false;
              worker_task := Some Scheduled |}
      by (destruct Ht as [-> | ->]; reflexivity).
    apply serial_scheduled. reflexivity.
Qed.

Lemma enqueue_rejected w l : accepted w = false -> snd (enqueue w l) = l.
Proof.
  unfold accepted, binds, enqueue. intros H.
  destruct (is_coroutine_function w); simpl in *; [|reflexivity].
  destruct (bind_error w); [reflexivity|discriminate].
Qed.

Lemma serial_start ws n l :
  serial ws n l ->
  exists n',
    serial ws n' {| tm := start (tm l); futures := futures l; log := log l |}.
Proof.
  destruct 1 as [done rest E|done w rest E|t Ht]; cbn.
  - eexists. apply serial_scheduled. exact E.
  - eexists. apply serial_awaiting. exact E.
  - exists (S (length (@nil Work))).
    replace (start {| task_queue := []; worker_running := false;
                      worker_task := t |})
      with {| task_queue := tasks_from (length ws) [];
              worker_running := false; worker_task := Some Scheduled |}
      by (destruct Ht as [-> | ->]; reflexivity).
    replace (map finished ws) with (map finished ws ++ map pending [])
      by apply app_nil_r.
    apply serial_scheduled. symmetry. apply app_nil_r.
Qed.

Lemma lookup_middle_pending done rest :
  (map finished done ++ Pending :: map pending rest) !! length done
  = Some Pending.
Proof.
  rewrite lookup_app_r by (rewrite length_map; lia).
  rewrite length_map, Nat.sub_diag. reflexivity.
Qed.

Lemma insert_middle_finished done w rest :
  <[length done := Finished (body w)]>
    (map finished done ++ Pending :: map pending rest)
  = map finished (done ++ [w]) ++ map pending rest.
Proof.
  rewrite insert_app_r_alt by (rewrite length_map; lia).
  rewrite length_map, Nat.sub_diag, map_app, <- app_assoc. reflexivity.
Qed.

(** One run of the worker: it takes the next unit of work, or resolves the
    one it awaited and takes the next, or leaves. *)
Lemma serial_run ws n l :
  forallb settles ws = true ->
  serial ws (S n) l ->
  serial ws n (run_worker l).
Proof.
  intros Hs H. inversion H as [done rest E Hn|done w rest E Hn|]; subst.
  - unfold run_worker, _task_worker, worker_loop. cbn.
    destruct rest as [|w rest]; cbn.
    + rewrite !app_nil_r. unfold worker_exit. cbn.
      apply (serial_idle _ (Some Done)). auto.
    + apply serial_awaiting. reflexivity.
  - assert (Hw : settles w = true).
    { rewrite forallb_app in Hs. apply andb_prop in Hs as [_ Hs].
      simpl in Hs. apply andb_prop in Hs as [Hs _]. exact Hs. }
    assert (Hres : resolve (length done) (body w)
                     {| tm := {| task_queue := tasks_from (S (length done)) rest;
                                 worker_running := true;
                                 worker_task :=
                                   Some (Awaiting (w, length done)) |};
                        futures := map finished done
                                   ++ Pending :: map pending rest;
                        log := serial_log 0 done ++ [Began (length done)] |}
                   = (Ok tt,
                      {| tm := {| task_queue :=
                                    tasks_from (S (length done)) rest;
                                  worker_running := true;
                                  worker_task :=
                                    Some (Awaiting (w, length done)) |};
                         futures := map finished (done ++ [w])
                                    ++ map pending rest;
                         log := serial_log 0 (done ++ [w]) |})).
    { unfold resolve. cbn [futures log tm].
      rewrite lookup_middle_pending, insert_middle_finished.
      rewrite serial_log_app, <- app_assoc. reflexivity. }
    unfold run_worker. cbn [tm worker_task fst].
    unfold worker_resume. cbn [snd].
    unfold settles in Hw.
    destruct (body w) as [v|e] eqn:Hb.
    + rewrite Hres. unfold worker_loop. cbn.
      destruct rest as [|w' rest]; cbn.
      * rewrite app_nil_r. unfold worker_exit. cbn.
        apply (serial_idle _ (Some Done)). auto.
      * replace (S (length done)) with (length (done ++ [w]))
          by (rewrite length_app; simpl; lia).
        apply serial_awaiting. rewrite <- app_assoc. reflexivity.
    + rewrite Hw, Hres. unfold worker_loop. cbn.
      destruct rest as [|w' rest]; cbn.
      * rewrite app_nil_r. unfold worker_exit. cbn.
        apply (serial_idle _ (Some Done)). auto.
      * replace (S (length done)) with (length (done ++ [w]))
          by (rewrite length_app; simpl; lia).
        apply serial_awaiting. rewrite <- app_assoc. reflexivity.
Qed.

Lemma serial_rest ws l : serial ws 0 l -> run_worker l = l.
Proof.
  inversion 1 as [| |t Ht]; subst.
  destruct Ht as [-> | ->]; reflexivity.
Qed.

Lemma serial_steps es : forall ws n l,
  no_stop es = true ->
  forallb settles (ws ++ submitted es) = true ->
  serial ws n l ->
  exists n', serial (ws ++ submitted es) n' (run_steps es l).
Proof.
  induction es as [|e es IH]; intros ws n l Hns Hs H.
  - simpl. rewrite app_nil_r. eauto.
  - simpl in Hns. apply andb_prop in Hns as [He Hns].
    change (run_steps (e :: es) l) with (run_steps es (do_step e l)).
    destruct e as [w| | |]; simpl in *.
    + destruct (accepted w) eqn:Ha.
      * destruct (serial_enqueue _ _ _ w Ha H) as (n1 & H1).
        replace (ws ++ w :: submitted es) with ((ws ++ [w]) ++ submitted es)
          in * by (rewrite <- app_assoc; reflexivity).
        eapply IH; eauto.
      * rewrite (enqueue_rejected _ _ Ha). eapply IH; eauto.
    + destruct (serial_start _ _ _ H) as (n1 & H1). eapply IH; eauto.
    + assert (Hws : forallb settles ws = true).
      { rewrite forallb_app in Hs. apply andb_prop in Hs as [Hs _]. exact Hs. }
      destruct n as [|n].
      * rewrite (serial_rest _ _ H). eapply IH; eauto.
      * eapply IH; eauto using serial_run.
    + discriminate.
Qed.

Lemma serial_drain ws : forall m n l,
  forallb settles ws = true ->
  serial ws n l ->
  n <= m ->
  serial ws 0 (run_steps (repeat Run m) l).
Proof.
  induction m as [|m IH]; intros n l Hs H Hn.
  - assert (n = 0) as -> by lia. exact H.
  - change (run_steps (repeat Run (S m)) l)
      with (run_steps (repeat Run m) (run_worker l)).
    destruct n as [|n].
    + rewrite (serial_rest _ _ H). apply (IH 0); [assumption..|lia].
    + apply (IH n); [assumption|apply serial_run; assumption|lia].
Qed.

(** However the calls of [enqueue] and the runs of the worker interleave,
    once the worker has had one run more than there are units of work, it
    is idle and has run them all, serially. *)
Lemma serial_execution es m :
  no_stop es = true ->
  forallb settles (submitted es) = true ->
  length (submitted es) < m ->
  serial (submitted es) 0 (run_steps (es ++ repeat Run m) init).
Proof.
  intros Hns Hs Hm. rewrite run_steps_app.
  destruct (serial_steps es [] 0 init Hns Hs serial_init) as (n & H).
  simpl in H. apply (serial_drain _ m n); [assumption..|].
  apply serial_bound in H. lia.
Qed.

Lemma serial_final ws l :
  serial ws 0 l ->
  log l = serial_log 0 ws
  /\ futures l = map finished ws
  /\ task_queue (tm l) = []
  /\ worker_running (tm l) = false.
Proof. inversion 1; subst; simpl; auto. Qed.

Lemma resolves_resolution f f' r :
  resolves f (resolution f' r) = Nat.eqb f' f.
Proof. destruct r; reflexivity. Qed.

Lemma resolutions_app f lg1 lg2 :
  resolutions f (lg1 ++ lg2) = resolutions f lg1 + resolutions f lg2.
Proof. unfold resolutions. rewrite List.filter_app, length_app. reflexivity. Qed.

Lemma resolutions_cons f a lg :
  resolutions f (a :: lg)
  = (if resolves f a then 1 else 0) + resolutions f lg.
Proof. unfold resolutions. simpl. destruct (resolves f a); reflexivity. Qed.

Lemma resolutions_serial_log f ws : forall i,
  resolutions f (serial_log i ws)
  = if (i <=? f) && (f <? i + length ws) then 1 else 0.
Proof.
  induction ws as [|w ws IH]; intros i.
  - cbn [serial_log length].
    destruct (Nat.leb_spec i f), (Nat.ltb_spec f (i + 0));
      cbn; try reflexivity; lia.
  - cbn [serial_log length].
    rewrite !resolutions_cons, resolves_resolution, IH.
    cbn [resolves].
    destruct (Nat.eqb_spec i f), (Nat.leb_spec (S i) f),
      (Nat.ltb_spec f (S i + length ws)), (Nat.leb_spec i f),
      (Nat.ltb_spec f (i + S (length ws)));
      cbn; try reflexivity; lia.
Qed.

(** *** Turns *)

Lemma run_turns_app ts1 ts2 l :
  run_turns (ts1 ++ ts2) l = run_turns ts2 (run_turns ts1 l).
Proof. unfold run_turns. apply fold_left_app. Qed.

Lemma steps_of_app ts1 ts2 :
  steps_of (ts1 ++ ts2) = steps_of ts1 ++ steps_of ts2.
Proof.
  induction ts1 as [|t ts1 IH]; simpl; [reflexivity|].
  destruct t; simpl; congruence.
Qed.

Lemma run_turns_own es : forall l,
  run_turns (map Own es) l = run_steps es l.
Proof.
  induction es as [|e es IH]; intros l; [reflexivity|]. apply IH.
Qed.

Lemma steps_of_own es : steps_of (map Own es) = es.
Proof. induction es as [|e es IH]; simpl; congruence. Qed.

Lemma repeat_own e m : repeat (Own e) m = map Own (repeat e m).
Proof. induction m as [|m IH]; simpl; congruence. Qed.

(** Turns among which no caller is cancelled are a schedule of steps. *)
Lemma run_turns_undisturbed ts : forall l,
  undisturbed ts = true ->
  run_turns ts l = run_steps (steps_of ts) l
  /\ no_stop (steps_of ts) = true.
Proof.
  induction ts as [|t ts IH]; intros l H; [split; reflexivity|].
  simpl in H. apply andb_prop in H as [Ht H].
  destruct t as [e|f]; [|discriminate].
  destruct (IH (do_step e l) H) as (Hrun & Hns).
  split; [exact Hrun|]. simpl. rewrite Ht. exact Hns.
Qed.

(** The outcome of a schedule without [stop] in which every unit of work
    settles, once the worker has had its runs. *)
Lemma settled_schedule_outcome (es : list step) (m : nat) :
  no_stop es = true ->
  forallb settles (submitted es) = true ->
  length (submitted es) < m ->
  let l := run_steps (es ++ repeat Run m) init in
  log l = serial_log 0 (submitted es)
  /\ futures l = map finished (submitted es)
  /\ (forall k w, submitted es !! k = Some w ->
      futures l !! k = Some (Finished (body w))
      /\ resolutions k (log l) = 1)
  /\ task_queue (tm l) = []
  /\ worker_running (tm l) = false.
Proof.
  intros Hns Hs Hm l.
  destruct (serial_final _ _ (serial_execution es m Hns Hs Hm))
    as (Hlog & Hfut & Hq & Hr).
  fold l in Hlog, Hfut, Hq, Hr.
  split; [exact Hlog|]. split; [exact Hfut|].
  split; [|split; assumption].
  intros k w Hk. rewrite Hfut, Hlog. split.
  - rewrite list_lookup_fmap, Hk. reflexivity.
  - rewrite resolutions_serial_log. simpl.
    apply lookup_lt_Some in Hk.
    destruct (k <? length (submitted es)) eqn:E; [reflexivity|].
    apply Nat.ltb_ge in E. lia.
Qed.

Lemma settled_turns_outcome (ts : list turn) (m : nat) :
  undisturbed ts = true ->
  forallb settles (submitted (steps_of ts)) = true ->
  length (submitted (steps_of ts)) < m ->
  let l := run_turns (ts ++ repeat (Own Run) m) init in
  log l = serial_log 0 (submitted (steps_of ts))
  /\ futures l = map finished (submitted (steps_of ts))
  /\ (forall k w, submitted (steps_of ts) !! k = Some w ->
      futures l !! k = Some (Finished (body w))
      /\ resolutions k (log l) = 1)
  /\ task_queue (tm l) = []
  /\ worker_running (tm l) = false.
Proof.
  intros Hu Hs Hm.
  destruct (run_turns_undisturbed ts init Hu) as (Hrun & Hns).
  rewrite run_turns_app, Hrun, repeat_own, run_turns_own, <- run_steps_app.
  apply settled_schedule_outcome; assumption.
Qed.

(** C4, as the code has it. Take any interleaving of calls of [enqueue]
    and runs of the worker, without [stop] and without a cancelled
    caller, in which every unit of work that passes the validation
    returns or raises an exception derived from [Exception]. Once the
    worker has had its runs, it has called the units one at a time in the
    order of their submission, each one resolved before the next is
    called; every handle is resolved, the [k]-th with what the [k]-th
    unit returned or raised, whatever the others did; and the worker is
    idle with an empty queue. *)
Theorem settled_units_run_serially_in_order (ts : list turn) (m : nat) :
  undisturbed ts = true ->
  forallb settles (submitted (steps_of ts)) = true ->
  length (submitted (steps_of ts)) < m ->
  let l := run_turns (ts ++ repeat (Own Run) m) init in
  log l = serial_log 0 (submitted (steps_of ts))
  /\ futures l = map finished (submitted (steps_of ts))
  /\ (forall k w, submitted (steps_of ts) !! k = Some w ->
      futures l !! k = Some (Finished (body w))
      /\ resolutions k (log l) = 1)
  /\ task_queue (tm l) = []
  /\ worker_running (tm l) = false.
Proof. apply settled_turns_outcome. Qed.

Lemma done_worker_stays l m :
  worker_task (tm l) = Some Done ->
  run_steps (repeat Run m) l = l.
Proof.
  intros Hd. induction m as [|m IH]; [reflexivity|].
  change (run_steps (repeat Run (S m)) l)
    with (run_steps (repeat Run m) (run_worker l)).
  unfold run_worker. rewrite Hd. exact IH.
Qed.

(** C4 as stated fails: when the first of two units of work raises
    [CancelledError], which [except Exception] does not catch, the worker
    leaves; no handle is ever resolved, however long the worker is given
    to run, and the second unit stays on the queue. *)
Lemma cancelled_unit_ends_the_worker :
  let es := [Enqueue Samples.unit_X; Enqueue Samples.unit_C] in
  submitted es = [Samples.unit_X; Samples.unit_C]
  /\ (forall m, futures (run_steps (es ++ repeat Run m) init)
                = [Pending; Pending])
  /\ (forall m, log (run_steps (es ++ repeat Run (2 + m)) init) = [Began 0])
  /\ (forall m, tm (run_steps (es ++ repeat Run (2 + m)) init)
                = {| task_queue := [(Samples.unit_C, 1)];
                     worker_running := false;
                     worker_task := Some Done |}).
Proof.
  assert (Hstuck : forall m,
    run_steps ([Enqueue Samples.unit_X; Enqueue Samples.unit_C]
               ++ repeat Run (2 + m)) init
    = run_steps ([Enqueue Samples.unit_X; Enqueue Samples.unit_C]
               ++ repeat Run 2) init).
  { intros m. rewrite repeat_app, app_assoc, run_steps_app.
    apply done_worker_stays. reflexivity. }
  cbv zeta. split; [reflexivity|]. split; [|split].
  - intros [|[|m]]; [reflexivity..|].
    change (S (S m)) with (2 + m). rewrite (Hstuck m). reflexivity.
  - intros m. rewrite (Hstuck m). reflexivity.
  - intros m. rewrite (Hstuck m). reflexivity.
Qed.

(** *** Every schedule *)

Lemma sound_init : sound [] init.
Proof.
  split; simpl; auto; try discriminate.
Qed.

Lemma tracked_app ws w t : tracked ws t -> tracked (ws ++ [w]) t.
Proof. unfold tracked. intros H. apply lookup_app_l_Some. exact H. Qed.

Lemma sound_start ws l :
  sound ws l ->
  sound ws {| tm := start (tm l); futures := futures l; log := log l |}.
Proof.
  intros [H1 H2 H3 H4]. unfold start.
  split; simpl; auto.
  - destruct (worker_task (tm l)) as [[]|]; simpl; assumption.
  - intros t. destruct (worker_task (tm l)) as [[]|] eqn:E; simpl;
      try discriminate; rewrite ?E; auto.
Qed.

Lemma sound_enqueue ws l w :
  accepted w = true ->
  sound ws l ->
  sound (ws ++ [w]) (snd (enqueue w l)).
Proof.
  intros Hacc Hs. unfold accepted in Hacc. apply andb_prop in Hacc as [Hc Hb].
  unfold binds in Hb. destruct (bind_error w) eqn:Hbe; [discriminate|].
  unfold enqueue. rewrite Hc, Hbe. cbn [negb snd].
  set (m1 := {| task_queue := task_queue (tm l) ++ [(w, length (futures l))];
                worker_running := worker_running (tm l);
                worker_task := worker_task (tm l) |}).
  assert (Hbase : sound (ws ++ [w])
            {| tm := m1; futures := futures l ++ [Pending]; log := log l |}).
  { destruct Hs as [H1 H2 H3 H4]. split; cbn [futures log tm task_queue worker_task worker_running].
    - rewrite !length_app, H1. reflexivity.
    - apply Forall_app. split.
      + eapply Forall_impl; [exact H2|]. intros t. apply tracked_app.
      + constructor; [|constructor]. unfold tracked. cbn.
        rewrite H1, lookup_app_r, Nat.sub_diag by lia. reflexivity.
    - intros t Ht. apply tracked_app, H3, Ht.
    - intros f. specialize (H4 f).
      destruct (Nat.lt_ge_cases f (length (futures l))) as [Hlt|Hge].
      + rewrite lookup_app_l by exact Hlt.
        destruct (futures l !! f) as [[|r|]|]; auto.
        destruct H4 as (Hr & w0 & Hw0 & Hor). split; [exact Hr|].
        exists w0. split; [|exact Hor]. apply lookup_app_l_Some, Hw0.
      + rewrite (lookup_ge_None_2 (futures l) f Hge) in H4.
        rewrite lookup_app_r by exact Hge.
        destruct (f - length (futures l)) as [|n]; cbn; exact H4. }
  destruct (negb (worker_running m1)); [|exact Hbase].
  apply (sound_start _ _ Hbase).
Qed.

Lemma resolutions_snoc f lg a :
  resolutions f (lg ++ [a])
  = resolutions f lg + (if resolves f a then 1 else 0).
Proof.
  rewrite resolutions_app, resolutions_cons. unfold resolutions. simpl. lia.
Qed.

Lemma sound_worker_exit ws l : sound ws l -> sound ws (worker_exit l).
Proof.
  intros [H1 H2 H3 H4]. split; cbn [futures log tm task_queue worker_task worker_running]; auto. intros t Ht. discriminate.
Qed.

Lemma sound_worker_loop ws l : sound ws l -> sound ws (worker_loop l).
Proof.
  intros Hs. unfold worker_loop.
  destruct (task_queue (tm l)) as [|t q] eqn:Hq;
    [apply sound_worker_exit, Hs|].
  destruct Hs as [H1 H2 H3 H4]. rewrite Hq in H2.
  apply Forall_cons in H2 as [Ht H2].
  split; cbn [futures log tm task_queue worker_task worker_running]; auto.
  - intros t' E. injection E as <-. exact Ht.
  - intros f. specialize (H4 f). rewrite resolutions_snoc. cbn.
    rewrite Nat.add_0_r. exact H4.
Qed.

(** A call of [set_result] or [set_exception] that raises changes
    nothing, and so would any other on the same future. *)
Lemma resolve_raises f r l e l' :
  resolve f r l = (Raise e, l') ->
  l' = l /\ forall r', resolve f r' l = (Raise InvalidStateError, l).
Proof.
  unfold resolve. destruct (futures l !! f) as [[|r0|]|]; intros E;
    try discriminate; injection E as _ <-; auto.
Qed.

Lemma sound_resolve ws l w f r :
  sound ws l ->
  ws !! f = Some w ->
  r = body w \/ r = on_cancel w ->
  sound ws (snd (resolve f r l)).
Proof.
  intros Hs Hw Hr. unfold resolve.
  destruct (futures l !! f) as [[|r0|]|] eqn:Hf; try exact Hs.
  destruct Hs as [H1 H2 H3 H4]. cbn [snd]. split; cbn [futures log tm task_queue worker_task worker_running]; auto.
  - rewrite length_insert. exact H1.
  - intros f'. specialize (H4 f'). rewrite resolutions_snoc.
    replace (resolves f' match r with
                         | Ok v => SetResult f v
                         | Raise e => SetException f e
                         end)
      with (Nat.eqb f f') by (destruct r; reflexivity).
    destruct (Nat.eqb_spec f f') as [<-|Hne].
    + rewrite list_lookup_insert_eq by (apply lookup_lt_Some in Hf; exact Hf).
      rewrite Hf in H4. rewrite H4. split; [reflexivity|]. eauto.
    + rewrite list_lookup_insert_ne by exact Hne.
      rewrite Nat.add_0_r. exact H4.
Qed.

Lemma sound_worker_resume ws l t r :
  sound ws l ->
  tracked ws t ->
  r = body (fst t) \/ r = on_cancel (fst t) ->
  sound ws (worker_resume t r l).
Proof.
  intros Hs Ht Hr. unfold worker_resume.
  destruct r as [v|e].
  - destruct (resolve (snd t) (Ok v) l) as [[u|e] l1] eqn:E.
    + apply sound_worker_loop.
      replace l1 with (snd (resolve (snd t) (Ok v) l)) by (rewrite E; auto).
      eapply sound_resolve; eauto.
    + destruct (resolve_raises _ _ _ _ _ E) as (-> & Hall).
      destruct (is_Exception e); [|apply sound_worker_exit, Hs].
      rewrite Hall. apply sound_worker_exit, Hs.
  - destruct (is_Exception e); [|apply sound_worker_exit, Hs].
    destruct (resolve (snd t) (Raise e) l) as [[u|e'] l1] eqn:E.
    + apply sound_worker_loop.
      replace l1 with (snd (resolve (snd t) (Raise e) l)) by (rewrite E; auto).
      eapply sound_resolve; eauto.
    + destruct (resolve_raises _ _ _ _ _ E) as (-> & _).
      apply sound_worker_exit, Hs.
Qed.

Lemma sound_step ws l e :
  sound ws l ->
  sound (ws ++ submitted [e]) (do_step e l).
Proof.
  intros Hs. destruct e as [w| | |]; cbn [submitted do_step].
  - destruct (accepted w) eqn:Ha.
    + apply sound_enqueue; assumption.
    + rewrite app_nil_r, (enqueue_rejected _ _ Ha). exact Hs.
  - rewrite app_nil_r. apply sound_start, Hs.
  - rewrite app_nil_r. unfold run_worker.
    destruct (worker_task (tm l)) as [[|t|]|] eqn:Ht; try exact Hs.
    + unfold _task_worker.
      destruct (worker_running (tm l)).
      * destruct Hs as [H1 H2 H3 H4]. split; cbn [futures log tm task_queue worker_task worker_running]; auto. discriminate.
      * apply sound_worker_loop. destruct Hs as [H1 H2 H3 H4].
        split; cbn [futures log tm task_queue worker_task worker_running]; auto.
    + apply sound_worker_resume; auto. apply (sound_await _ _ Hs), Ht.
  - rewrite app_nil_r. unfold stop.
    destruct (worker_task (tm l)) as [[|t|]|] eqn:Ht; try exact Hs.
    + destruct Hs as [H1 H2 H3 H4]. split; cbn [futures log tm task_queue worker_task worker_running]; auto. discriminate.
    + apply sound_worker_resume; auto. apply (sound_await _ _ Hs), Ht.
Qed.

Lemma sound_steps es : forall ws l,
  sound ws l -> sound (ws ++ submitted es) (run_steps es l).
Proof.
  induction es as [|e es IH]; intros ws l Hs.
  - simpl. rewrite app_nil_r. exact Hs.
  - change (run_steps (e :: es) l) with (run_steps es (do_step e l)).
    change (e :: es) with ([e] ++ es).
    rewrite submitted_app, app_assoc. apply IH, sound_step, Hs.
Qed.

(** *** Dropped futures *)

Lemma dropped_worker_exit f l : dropped f l -> dropped f (worker_exit l).
Proof.
  intros (H1 & H2 & H3).
  split; [exact H1|]. split; [exact H2|].
  cbn. intros t Ht. discriminate.
Qed.

Lemma dropped_worker_loop f l : dropped f l -> dropped f (worker_loop l).
Proof.
  intros Hd. unfold worker_loop.
  destruct (task_queue (tm l)) as [|t q] eqn:Hq;
    [apply dropped_worker_exit, Hd|].
  destruct Hd as (H1 & H2 & H3). rewrite Hq in H2.
  apply Forall_cons in H2 as [Ht H2].
  split; [exact H1|]. split; [exact H2|].
  cbn. intros t' E. injection E as <-. exact Ht.
Qed.

Lemma dropped_resolve f f' r l :
  f' <> f -> dropped f l -> dropped f (snd (resolve f' r l)).
Proof.
  intros Hne Hd. unfold resolve.
  destruct (futures l !! f') as [[|r0|]|]; try exact Hd.
  destruct Hd as (H1 & H2 & H3).
  split; [|split; assumption].
  cbn. rewrite list_lookup_insert_ne by exact Hne. exact H1.
Qed.

Lemma dropped_worker_resume f t r l :
  snd t <> f -> dropped f l -> dropped f (worker_resume t r l).
Proof.
  intros Hne Hd. unfold worker_resume.
  assert (Hres : forall r',
    dropped f (snd (resolve (snd t) r' l))) by
    (intros r'; apply dropped_resolve; assumption).
  destruct r as [v|e].
  - specialize (Hres (Ok v)) as Hv.
    destruct (resolve (snd t) (Ok v) l) as [[u|e] l1] eqn:E; cbn in Hv.
    + apply dropped_worker_loop, Hv.
    + destruct (is_Exception e); [|apply dropped_worker_exit, Hv].
      specialize (dropped_resolve f (snd t) (Raise e) l1 Hne Hv) as He.
      destruct (resolve (snd t) (Raise e) l1) as [[u|e'] l2]; cbn in He.
      * apply dropped_worker_loop, He.
      * apply dropped_worker_exit, He.
  - destruct (is_Exception e); [|apply dropped_worker_exit, Hd].
    specialize (Hres (Raise e)) as He.
    destruct (resolve (snd t) (Raise e) l) as [[u|e'] l1]; cbn in He.
    + apply dropped_worker_loop, He.
    + apply dropped_worker_exit, He.
Qed.

Lemma dropped_start f l :
  dropped f l ->
  dropped f {| tm := start (tm l); futures := futures l; log := log l |}.
Proof.
  intros (H1 & H2 & H3). unfold start.
  split; [exact H1|].
  destruct (worker_task (tm l)) as [[|t|]|] eqn:E; cbn;
    (split; [exact H2|]); try discriminate; rewrite ?E; exact H3.
Qed.

Lemma dropped_step f l e : dropped f l -> dropped f (do_step e l).
Proof.
  intros Hd. destruct e as [w| | |]; cbn [do_step].
  - unfold enqueue.
    destruct (negb (is_coroutine_function w)); [exact Hd|].
    destruct (bind_error w); [exact Hd|]. cbn [snd].
    set (m1 := {| task_queue := task_queue (tm l) ++ [(w, length (futures l))];
                  worker_running := worker_running (tm l);
                  worker_task := worker_task (tm l) |}).
    assert (Hbase : dropped f
              {| tm := m1; futures := futures l ++ [Pending];
                 log := log l |}).
    { destruct Hd as (H1 & H2 & H3). split; [|split]; cbn.
      - apply lookup_app_l_Some, H1.
      - apply Forall_app. split; [exact H2|].
        constructor; [|constructor]. cbn.
        apply lookup_lt_Some in H1. lia.
      - exact H3. }
    destruct (negb (worker_running m1)); [|exact Hbase].
    apply (dropped_start _ _ Hbase).
  - apply dropped_start, Hd.
  - unfold run_worker.
    destruct (worker_task (tm l)) as [[|t|]|] eqn:Ht; try exact Hd.
    + unfold _task_worker. destruct Hd as (H1 & H2 & H3).
      destruct (worker_running (tm l)).
      * split; [exact H1|]. split; [exact H2|]. cbn. discriminate.
      * apply dropped_worker_loop. split; [exact H1|].
        split; [exact H2|]. exact H3.
    + apply dropped_worker_resume; [|exact Hd].
      destruct Hd as (_ & _ & H3). apply H3, Ht.
  - unfold stop.
    destruct (worker_task (tm l)) as [[|t|]|] eqn:Ht; try exact Hd.
    + destruct Hd as (H1 & H2 & H3).
      split; [exact H1|]. split; [exact H2|]. cbn. discriminate.
    + apply dropped_worker_resume; [|exact Hd].
      destruct Hd as (_ & _ & H3). apply H3, Ht.
Qed.

(** A dropped future stays pending whatever happens next. *)
Lemma dropped_steps f es : forall l,
  dropped f l -> dropped f (run_steps es l).
Proof.
  induction es as [|e es IH]; intros l Hd; [exact Hd|].
  change (run_steps (e :: es) l) with (run_steps es (do_step e l)).
  apply IH, dropped_step, Hd.
Qed.

Lemma sound_cancel_caller ws l f :
  sound ws l -> sound ws (cancel_caller f l).
Proof.
  intros Hs. unfold cancel_caller.
  destruct (futures l !! f) as [[|r0|]|] eqn:Hf; try exact Hs.
  destruct Hs as [H1 H2 H3 H4].
  split; cbn [futures log tm task_queue worker_task worker_running]; auto.
  - rewrite length_insert. exact H1.
  - intros f'. specialize (H4 f').
    destruct (Nat.eq_dec f f') as [<-|Hne].
    + rewrite list_lookup_insert_eq by (apply lookup_lt_Some in Hf; exact Hf).
      rewrite Hf in H4. exact H4.
    + rewrite list_lookup_insert_ne by exact Hne. exact H4.
Qed.

Lemma sound_turns ts : forall ws l,
  sound ws l -> sound (ws ++ submitted (steps_of ts)) (run_turns ts l).
Proof.
  induction ts as [|t ts IH]; intros ws l Hs.
  - simpl. rewrite app_nil_r. exact Hs.
  - change (run_turns (t :: ts) l) with (run_turns ts (do_turn t l)).
    destruct t as [e|f]; cbn [steps_of do_turn].
    + change (e :: steps_of ts) with ([e] ++ steps_of ts).
      rewrite submitted_app, app_assoc. apply IH, sound_step, Hs.
    + apply IH, sound_cancel_caller, Hs.
Qed.

(** C2, as the code has it. Under every interleaving of calls of
    [enqueue], [start] and [stop], runs of the worker and cancellations
    of callers, the handle of a task put on the queue is at any time
    either unresolved, pending or cancelled, or resolved exactly once,
    with what its own unit of work returned or raised: never twice. And
    without [stop] and without a cancelled caller, when every unit of
    work submitted returns or raises an exception derived from
    [Exception], the handle is resolved exactly once, with what its unit
    returned or raised, by the time the worker has had its runs. *)
Theorem handle_resolved_at_most_once (ts : list turn) (f : nat) (w : Work) :
  submitted (steps_of ts) !! f = Some w ->
  let l := run_turns ts init in
  (((futures l !! f = Some Pending \/ futures l !! f = Some Cancelled)
    /\ resolutions f (log l) = 0)
   \/ (exists r, futures l !! f = Some (Finished r)
                /\ resolutions f (log l) = 1
                /\ (r = body w \/ r = on_cancel w)))
  /\ (undisturbed ts = true ->
      forallb settles (submitted (steps_of ts)) = true ->
      forall m, length (submitted (steps_of ts)) < m ->
        let l' := run_turns (ts ++ repeat (Own Run) m) init in
        futures l' !! f = Some (Finished (body w))
        /\ resolutions f (log l') = 1).
Proof.
  intros Hw l. split.
  - pose proof (sound_turns ts [] init sound_init) as Hs.
    simpl in Hs. fold l in Hs.
    pose proof (sound_futures _ _ Hs f) as Hf.
    pose proof (sound_length _ _ Hs) as Hl.
    destruct (futures l !! f) as [[|r|]|] eqn:E.
    + left. auto.
    + right. destruct Hf as (Hr & w' & Hw' & Hor).
      exists r. rewrite Hw in Hw'. injection Hw' as <-. auto.
    + left. auto.
    + apply lookup_ge_None_1 in E. apply lookup_lt_Some in Hw. lia.
  - intros Hu Hst m Hm l'.
    destruct (settled_turns_outcome ts m Hu Hst Hm) as (_ & _ & Hk & _).
    exact (Hk f w Hw).
Qed.

(** C2 as stated fails: two tasks are queued, the worker is suspended in
    the first, and [stop] is called. The first handle is dropped: it is
    pending, was never resolved, and stays so under every continuation.
    The second task is left on the queue of a worker that is done: no run
    of the worker resolves it. *)
Lemma stop_leaves_handles_unresolved :
  let l := run_steps [Enqueue Samples.unit_A; Enqueue Samples.unit_C;
                      Run; Stop] init in
  futures l = [Pending; Pending]
  /\ log l = [Began 0]
  /\ tm l = {| task_queue := [(Samples.unit_C, 1)];
               worker_running := false;
               worker_task := Some Done |}
  /\ (forall es, futures (run_steps es l) !! 0 = Some Pending
                 /\ resolutions 0 (log (run_steps es l)) = 0)
  /\ (forall m, futures (run_steps (repeat Run m) l) = [Pending; Pending]).
Proof.
  cbv zeta.
  set (l := run_steps [Enqueue Samples.unit_A; Enqueue Samples.unit_C;
                       Run; Stop] init).
  split; [reflexivity|]. split; [reflexivity|]. split; [reflexivity|].
  split.
  - intros es.
    assert (Hd : dropped 0 l).
    { split; [reflexivity|]. split.
      - constructor; [cbn; lia|constructor].
      - cbn. discriminate. }
    destruct (dropped_steps 0 es l Hd) as (Hp & _).
    split; [exact Hp|].
    pose proof (sound_steps
      ([Enqueue Samples.unit_A; Enqueue Samples.unit_C; Run; Stop] ++ es)
      [] init sound_init) as Hs.
    rewrite run_steps_app in Hs. fold l in Hs.
    pose proof (sound_futures _ _ Hs 0) as Hf. rewrite Hp in Hf. exact Hf.
  - intros m. rewrite done_worker_stays; reflexivity.
Qed.

(** A caller cancelled before its unit of work has ended ends the
    worker: [set_result], and then [set_exception] in the handler, raise
    [InvalidStateError] on the cancelled future. The task behind stays on
    the queue, its handle pending. *)
Lemma cancelled_caller_ends_the_worker :
  let l := run_turns [Own (Enqueue Samples.unit_A);
                      Own (Enqueue Samples.unit_C);
                      Own Run; CancelCaller 0; Own Run] init in
  futures l = [Cancelled; Pending]
  /\ log l = [Began 0]
  /\ tm l = {| task_queue := [(Samples.unit_C, 1)];
               worker_running := false;
               worker_task := Some Done |}.
Proof. cbv zeta. split; [|split]; reflexivity. Qed.

Lemma handle_resolved_at_most_once_witness :
  let ts := [Own (Enqueue Samples.unit_A); Own (Enqueue Samples.unit_B);
             Own (Enqueue Samples.unit_C); Own Run; CancelCaller 1;
             Own Run; Own Run; Own Stop] in
  (((futures (run_turns ts init) !! 0 = Some Pending
     \/ futures (run_turns ts init) !! 0 = Some Cancelled)
    /\ resolutions 0 (log (run_turns ts init)) = 0)
   \/ (exists r, futures (run_turns ts init) !! 0 = Some (Finished r)
                /\ resolutions 0 (log (run_turns ts init)) = 1
                /\ (r = body Samples.unit_A \/ r = on_cancel Samples.unit_A))).
Proof.
  exact (proj1 (handle_resolved_at_most_once
                  [Own (Enqueue Samples.unit_A); Own (Enqueue Samples.unit_B);
                   Own (Enqueue Samples.unit_C); Own Run; CancelCaller 1;
                   Own Run; Own Run; Own Stop]
                  0 Samples.unit_A eq_refl)).
Defined.

Lemma settled_units_run_serially_in_order_witness :
  let l := run_turns
             ([Own (Enqueue Samples.unit_A); Own Run;
               Own (Enqueue Samples.unit_B); Own (Enqueue Samples.unit_C)]
              ++ repeat (Own Run) 4) init in
  log l = [Began 0; SetResult 0 1%Z;
           Began 1; SetException 1 (ValueError "boom");
           Began 2; SetResult 2 3%Z]
  /\ futures l = [Finished (Ok 1%Z); Finished (Raise (ValueError "boom"));
                  Finished (Ok 3%Z)].
Proof.
  assert (Hm : length (submitted (steps_of
                 [Own (Enqueue Samples.unit_A); Own Run;
                  Own (Enqueue Samples.unit_B);
                  Own (Enqueue Samples.unit_C)])) < 4)
    by (cbn; lia).
  destruct (settled_units_run_serially_in_order
              [Own (Enqueue Samples.unit_A); Own Run;
               Own (Enqueue Samples.unit_B); Own (Enqueue Samples.unit_C)]
              4 eq_refl eq_refl Hm)
    as (H1 & H2 & _).
  split; [exact H1 | exact H2].
Defined.

End TasksFacts.

(** ** More properties of the executor *)

Module ExecutorMore.
Import Executor ExecutorNotions.

(** *** Cleaning *)

Lemma lstrip_starts_clean s : starts_clean (Py.lstrip s) = true.
Proof.
  induction s as [|c r IH]; simpl; [reflexivity|].
  destruct (Py.isspace c) eqn:E; [exact IH|]. simpl. rewrite E. reflexivity.
Qed.

Lemma lstrip_clean s : starts_clean s = true -> Py.lstrip s = s.
Proof.
  destruct s as [|c r]; simpl; [reflexivity|].
  destruct (Py.isspace c); [discriminate|reflexivity].
Qed.

Lemma rstrip_starts_clean s :
  starts_clean s = true -> starts_clean (Py.rstrip s) = true.
Proof.
  destruct s as [|c r]; simpl; [reflexivity|].
  intros H. destruct (Py.isspace c) eqn:E; [discriminate|].
  simpl. rewrite E. reflexivity.
Qed.

Lemma rstrip_idem s : Py.rstrip (Py.rstrip s) = Py.rstrip s.
Proof.
  induction s as [|c r IH]; simpl; [reflexivity|].
  destruct (Py.isspace c && negb (Py.truthy (Py.rstrip r))) eqn:E;
    [reflexivity|].
  simpl. rewrite IH, E. reflexivity.
Qed.

Lemma strip_idem s : Py.strip (Py.strip s) = Py.strip s.
Proof.
  unfold Py.strip.
  rewrite (lstrip_clean (Py.rstrip (Py.lstrip s)))
    by apply rstrip_starts_clean, lstrip_starts_clean.
  apply rstrip_idem.
Qed.

Lemma no_control_lstrip s : no_control s = true -> no_control (Py.lstrip s) = true.
Proof.
  unfold no_control. induction s as [|c r IH]; simpl; [reflexivity|].
  intros H. apply andb_prop in H as [Hc Hr].
  destruct (Py.isspace c); [auto|]. simpl. rewrite Hc. exact Hr.
Qed.

Lemma no_control_rstrip s : no_control s = true -> no_control (Py.rstrip s) = true.
Proof.
  unfold no_control. induction s as [|c r IH]; simpl; [reflexivity|].
  intros H. apply andb_prop in H as [Hc Hr].
  destruct (Py.isspace c && negb (Py.truthy (Py.rstrip r)));
    [reflexivity|].
  simpl. rewrite Hc. auto.
Qed.

Lemma no_control_remove_control s : no_control (remove_control s) = true.
Proof.
  unfold no_control. induction s as [|c r IH]; simpl; [reflexivity|].
  destruct (is_control c) eqn:E; [exact IH|]. simpl. rewrite E. exact IH.
Qed.

Lemma _extract_meaningful_text_Some (data t : string) :
  _extract_meaningful_text data = Some t ->
  Py.truthy t = true /\ no_control t = true /\ Py.strip t = t.
Proof.
  unfold _extract_meaningful_text.
  set (cleaned := remove_control (remove_ansi data)).
  destruct (0 <? String.length (Py.strip cleaned))%nat eqn:E;
    [|discriminate].
  intros H. injection H as <-. split; [|split].
  - apply Nat.ltb_lt in E. destruct (Py.strip cleaned); simpl in *;
      [lia|reflexivity].
  - unfold Py.strip. apply no_control_rstrip, no_control_lstrip.
    apply no_control_remove_control.
  - apply strip_idem.
Qed.

(** X1. What [_extract_meaningful_text] returns, when it returns a text,
    is not empty, holds no control character, and has no white space at
    either end. *)
Theorem extracted_text_is_clean (data t : string) :
  _extract_meaningful_text data = Some t ->
  Py.truthy t = true
  /\ no_control t = true
  /\ Py.strip t = t.
Proof. apply _extract_meaningful_text_Some. Qed.

Lemma extracted_text_is_clean_witness :
  Py.truthy "ok" = true /\ no_control "ok" = true /\ Py.strip "ok" = "ok".
Proof.
  exact (extracted_text_is_clean
           (String.append (String ESC "[0m") "  ok ") "ok" eq_refl).
Defined.

Lemma has_m_append a b : has_m (String.append a b) = has_m a || has_m b.
Proof.
  induction a as [|c a IH]; simpl; [reflexivity|].
  rewrite IH. apply orb_assoc.
Qed.

Lemma remove_ansi_inside seq post :
  has_m seq = false ->
  remove_ansi_from true (String.append seq (String "m" post))
  = remove_ansi_from false post.
Proof.
  induction seq as [|c seq IH]; simpl; [reflexivity|].
  intros H. apply orb_false_elim in H as [Hc Hs].
  rewrite Hc. auto.
Qed.

(** X2. An escape sequence, the escape character followed by characters
    other than [m] and closed by [m] (a colour code), is removed from a
    line, and the text before it, free of escape characters, is kept as
    it is; the cleaning goes on after the sequence. *)
Theorem colour_sequence_is_removed (pre seq post : string) :
  has_ESC pre = false ->
  has_m seq = false ->
  remove_ansi
    (String.append pre (String ESC (String.append seq (String "m" post))))
  = String.append pre (remove_ansi post).
Proof.
  intros Hpre Hseq. unfold remove_ansi.
  induction pre as [|c pre IH]; simpl.
  - rewrite has_m_append. simpl. rewrite orb_true_r.
    apply remove_ansi_inside, Hseq.
  - unfold has_ESC in Hpre. simpl in Hpre.
    apply orb_false_elim in Hpre as [Hc Hp].
    rewrite Hc. simpl. f_equal. apply IH. exact Hp.
Qed.

Lemma colour_sequence_is_removed_witness :
  remove_ansi
    (String.append "ok "
       (String ESC (String.append "[1;32" (String "m" "done"))))
  = "ok done".
Proof.
  exact (colour_sequence_is_removed "ok " "[1;32" "done" eq_refl eq_refl).
Defined.

(** *** Prompt detection *)

Lemma lower_append a b :
  Py.lower (String.append a b) = String.append (Py.lower a) (Py.lower b).
Proof. induction a as [|c a IH]; simpl; [reflexivity|]. rewrite IH. reflexivity. Qed.

(** X3. Prompt detection looks for its keywords anywhere in the line and
    without regard to case: a line that holds, in any mix of upper and
    lower case, one of [[y/n]], [(yes/no)], [(y/n)], [password:] and
    [continue?] is taken for a prompt. *)
Theorem prompt_keyword_in_any_case (kw before v after : string) :
  In kw prompt_keywords ->
  Py.lower v = kw ->
  _should_handle_prompt (String.append before (String.append v after)) = true.
Proof.
  intros Hin Hv. unfold _should_handle_prompt.
  apply existsb_exists. exists kw. split; [exact Hin|].
  rewrite !lower_append, Hv.
  apply ExecutorFacts.contains_append.
Qed.

Lemma prompt_keyword_in_any_case_witness :
  _should_handle_prompt "Do you want to Continue? [Y/n] " = true.
Proof.
  apply (prompt_keyword_in_any_case "[y/n]" "Do you want to Continue? "
           "[Y/n]" " "); [|reflexivity].
  simpl. auto.
Defined.

(** *** The reading loop *)

Lemma clean_line_truthy text t :
  clean_line text = Some t -> Py.truthy t = true.
Proof. intros H. apply (_extract_meaningful_text_Some _ _ H). Qed.

(** What one turn of the loop appends to the lines. *)
Lemma appended_line (output_lines : list string) text :
  match _extract_meaningful_text (Py.strip text) with
  | Some t => if Py.truthy t then output_lines ++ [t] else output_lines
  | None => output_lines
  end
  = output_lines ++ omap clean_line [text].
Proof.
  simpl. unfold clean_line.
  destruct (_extract_meaningful_text (Py.strip text)) as [t|] eqn:E.
  - rewrite (proj1 (_extract_meaningful_text_Some _ _ E)). reflexivity.
  - rewrite app_nil_r. reflexivity.
Qed.

Lemma loop_lines_are_cleaned (pid : nat) (script : list stdout_read)
    (env : Env) :
  forall (output_lines : list string) (w : World),
    exists n,
      fst (fst (read_loop pid script output_lines env w))
      = output_lines ++ omap clean_line (firstn n (lines_read script)).
Proof.
  induction script as [|r script IH]; intros output_lines w.
  - exists 0. simpl. rewrite app_nil_r. reflexivity.
  - destruct r as [text drain|e].
    + cbn [read_loop lines_read]. rewrite appended_line.
      assert (Hnext : forall w', exists n,
        fst (fst (read_loop pid script
                    (output_lines ++ omap clean_line [text]) env w'))
        = output_lines
          ++ omap clean_line (firstn n (text :: lines_read script))).
      { intros w'.
        destruct (IH (output_lines ++ omap clean_line [text]) w')
          as (n & Hn).
        exists (S n). cbn [firstn]. rewrite Hn, <- app_assoc.
        change (text :: firstn n (lines_read script))
          with ([text] ++ firstn n (lines_read script)).
        rewrite omap_app. reflexivity. }
      destruct (_should_handle_prompt (Py.strip text)); [|apply Hnext].
      destruct (_handle_prompt pid drain (Py.strip text) env w)
        as [[u|e] w']; [apply Hnext|].
      exists 1. reflexivity.
    + exists 0. cbn. rewrite app_nil_r. reflexivity.
Qed.

(** X4. The lines the reading loop has accumulated when it is left, in
    whatever way, are the cleaned texts of the first lines of the stream,
    in their order, the lines that clean to nothing being dropped; when
    the loop is left at the end of the stream, they are those of all the
    lines. *)
Theorem loop_accumulates_cleaned_lines
    (pid : nat) (script : list stdout_read) (env : Env) :
  forall (output_lines : list string) (w : World),
    let res := read_loop pid script output_lines env w in
    exists n,
      fst (fst res)
      = output_lines ++ omap clean_line (firstn n (lines_read script))
      /\ (snd (fst res) = Ok tt ->
          length (lines_read script) = length script
          /\ fst (fst res)
             = output_lines ++ omap clean_line (lines_read script)).
Proof.
  induction script as [|r script IH]; intros output_lines w; cbn zeta.
  - exists 0. simpl. rewrite app_nil_r. auto.
  - destruct r as [text drain|e].
    + cbn [read_loop lines_read]. rewrite appended_line.
      destruct (_should_handle_prompt (Py.strip text)).
      * destruct (_handle_prompt pid drain (Py.strip text) env w)
          as [[u|e] w'].
        -- destruct (IH (output_lines ++ omap clean_line [text]) w')
             as (n & Hn & Hok).
           exists (S n). cbn [firstn]. split.
           ++ rewrite Hn, <- app_assoc.
              change (text :: firstn n (lines_read script))
                with ([text] ++ firstn n (lines_read script)).
              rewrite omap_app. reflexivity.
           ++ intros Hr. destruct (Hok Hr) as (H2 & H3).
              split; [simpl; f_equal; exact H2|].
              rewrite H3, <- app_assoc.
              change (text :: lines_read script)
                with ([text] ++ lines_read script).
              rewrite omap_app. reflexivity.
        -- exists 1. cbn. split; [reflexivity|]. discriminate.
      * destruct (IH (output_lines ++ omap clean_line [text]) w)
          as (n & Hn & Hok).
        exists (S n). cbn [firstn]. split.
        -- rewrite Hn, <- app_assoc.
           change (text :: firstn n (lines_read script))
             with ([text] ++ firstn n (lines_read script)).
           rewrite omap_app. reflexivity.
        -- intros Hr. destruct (Hok Hr) as (H2 & H3).
           split; [simpl; f_equal; exact H2|].
           rewrite H3, <- app_assoc.
           change (text :: lines_read script)
             with ([text] ++ lines_read script).
           rewrite omap_app. reflexivity.
    + exists 0. cbn. rewrite app_nil_r. split; [reflexivity|]. discriminate.
Qed.

Lemma loop_accumulates_cleaned_lines_witness :
  fst (fst (read_loop 0 (stdout Samples.three_lines) []
              (Samples.env_of Samples.quiet) Samples.fresh))
  = ["one"; "two"; "three"].
Proof.
  destruct (loop_accumulates_cleaned_lines 0 (stdout Samples.three_lines)
              (Samples.env_of Samples.quiet) [] Samples.fresh)
    as (n & _ & H).
  destruct (H eq_refl) as (_ & H'). exact H'.
Defined.

Lemma _handle_prompt_canned pid text env w :
  (is_password_line text = true ->
   Py.truthy_opt (sudo_password (self w)) = true) ->
  _handle_prompt pid (Ok tt) (Py.strip text) env w
  = (Ok tt,
     record_event w
       (EStdinWrite pid
          (String.append (canned_answer (self w) text) (nl EmptyString)))).
Proof.
  intros Hpw. unfold _handle_prompt, canned_answer, is_password_line in *.
  destruct (Py.contains "password:" (Py.lower (Py.strip text))).
  - specialize (Hpw eq_refl).
    unfold bind, get_self, ret, emit, lift.
    destruct (sudo_password (self w)) as [pw|]; [|discriminate].
    simpl in Hpw. rewrite Hpw. reflexivity.
  - reflexivity.
Qed.

(** X5. On a stream whose lines can all be answered, where a credential
    is cached if any line asks for a password, the reading loop reaches
    the end of the stream, asks the user nothing, and writes to the
    process's stdin one answer for each line it takes for a prompt, in
    their order, and nothing for the other lines: the credential for a
    password prompt, [yes] for the others, each followed by a newline.
    The executor object is unchanged. *)
Theorem loop_answers_each_prompt_once
    (pid : nat) (texts : list string) (env : Env) :
  forall (output_lines : list string) (w : World),
    (forall t, In t texts -> is_password_line t = true ->
               Py.truthy_opt (sudo_password (self w)) = true) ->
    read_loop pid (answerable texts) output_lines env w
    = ((output_lines ++ omap clean_line texts, Ok tt),
       {| self := self w;
          trace :=
            trace w
            ++ map (fun t =>
                      EStdinWrite pid
                        (String.append (canned_answer (self w) t)
                           (nl EmptyString)))
                 (List.filter is_prompt_line texts) |}).
Proof.
  induction texts as [|t texts IH]; intros output_lines w Hpw.
  - simpl. rewrite !app_nil_r. destruct w; reflexivity.
  - cbn [answerable map read_loop]. rewrite appended_line.
    cbn [List.filter]. unfold is_prompt_line at 1.
    destruct (_should_handle_prompt (Py.strip t)).
    + rewrite _handle_prompt_canned by (apply Hpw; left; reflexivity).
      fold (answerable texts). rewrite IH.
      * cbn. rewrite <- !app_assoc. destruct (clean_line t); reflexivity.
      * intros t' Hin. apply Hpw. right. exact Hin.
    + fold (answerable texts). rewrite IH.
      * cbn. rewrite <- !app_assoc. destruct (clean_line t); reflexivity.
      * intros t' Hin. apply Hpw. right. exact Hin.
Qed.

Lemma loop_answers_each_prompt_once_witness :
  read_loop 0
    (answerable ["Reading package lists..."; "Continue? [Y/n]";
                 "[sudo] password:"; "Done"])
    [] (Samples.env_of Samples.quiet) (Samples.fresh_with_ui "hunter2")
  = ((["Reading package lists..."; "Continue? [Y/n]"; "[sudo] password:";
       "Done"], Ok tt),
     {| self := self (Samples.fresh_with_ui "hunter2");
        trace := [EStdinWrite 0 (String.append "yes" (nl EmptyString));
                  EStdinWrite 0 (String.append "hunter2" (nl EmptyString))] |}).
Proof.
  apply (loop_answers_each_prompt_once 0
           ["Reading package lists..."; "Continue? [Y/n]";
            "[sudo] password:"; "Done"]
           (Samples.env_of Samples.quiet) []
           (Samples.fresh_with_ui "hunter2")).
  intros t _ _. reflexivity.
Defined.

(** *** The sudo credential *)

Lemma spawns_snoc_prompt t e :
  is_prompt e = true -> spawns (t ++ [e]) = spawns t.
Proof.
  intros He. unfold spawns. rewrite List.filter_app. simpl.
  destruct e; simpl in *; try discriminate; apply app_nil_r.
Qed.



(** X7. When a sudo command needs a credential, none is cached on the
    executor or the UI, and the human returns the empty string from the
    password field, [execute_command] returns [None]: it spawns no
    process, neither probe nor command, appends nothing to [history],
    and leaves the empty string in [sudo_password]. *)
Theorem declined_credential_aborts
    (command0 : string) (env : Env) (w : World) :
  Py.startswith command0 "sudo" = true ->
  Py.truthy_opt (sudo_password (self w)) = false ->
  Py.truthy_opt (ui_pswd (self w)) = false ->
  user_input env (length (prompts (trace w))) = Ok EmptyString ->
  let res := execute_command command0 env w in
  fst res = Ok None
  /\ spawns (trace (snd res)) = spawns (trace w)
  /\ history (self (snd res)) = history (self w)
  /\ sudo_password (self (snd res)) = Some EmptyString.
Proof.
  intros Hsudo Hpw Hui Hin res. unfold res.
  assert (Hc : Py.truthy command0 = true).
  { destruct command0; [discriminate|reflexivity]. }
  destruct (ExecutorFacts._get_user_input_spec "Enter sudo password: " true
              EmptyString env w) as (e & He & Hpe).
  assert (Hline : command_line command0 env w
                  = (Ok None,
                     {| self := with_sudo_password (Some EmptyString) (self w);
                        trace := trace w ++ [e] |})).
  { unfold command_line. rewrite Hsudo. cbn zeta.
    unfold bind at 1. unfold get_self at 1. rewrite Hpw. cbn [negb].
    unfold bind at 1. unfold bind at 1. unfold _get_sudo_password.
    unfold bind at 1. unfold get_self at 1. rewrite Hui.
    unfold bind at 1. rewrite He, Hin. reflexivity. }
  rewrite (ExecutorFacts.execute_command_unfold _ _ _ Hc), Hline. cbn.
  rewrite (spawns_snoc_prompt _ _ Hpe). auto.
Qed.

Lemma declined_credential_aborts_witness :
  fst (execute_command "sudo reboot" (Samples.env_of Samples.quiet)
         Samples.fresh_with_empty_ui) = Ok None
  /\ spawns (trace (snd (execute_command "sudo reboot"
                           (Samples.env_of Samples.quiet)
                           Samples.fresh_with_empty_ui))) = [].
Proof.
  destruct (declined_credential_aborts "sudo reboot"
              (Samples.env_of Samples.quiet) Samples.fresh_with_empty_ui
              eq_refl eq_refl eq_refl eq_refl) as (H1 & H2 & _).
  split; [exact H1 | exact H2].
Defined.

(** *** Confirmation and execution *)

(** X8. When the human returns a text that is not empty from the
    confirmation field, which [start] pre-fills with the proposed command
    less its leading white space, [start] executes that text, not the
    proposed command, and returns it with what [execute_command] returns
    for it; an exception of [execute_command] passes through. *)
Theorem start_executes_the_confirmed_text
    (c cc : string) (env : Env) (w : World) :
  Py.truthy c = true ->
  user_input env (length (prompts (trace w))) = Ok cc ->
  Py.truthy cc = true ->
  let asked :=
    match ui (self w) with
    | Some _ => EPrompt confirmation_prompt false (Py.lstrip c)
    | None => EInput confirmation_prompt
    end in
  start (Some c) env w
  = match execute_command cc env (record_event w asked) with
    | (Ok out, w') => (Ok (Some cc, out), w')
    | (Raise e, w') => (Raise e, w')
    end.
Proof.
  intros Hc Hin Hcc asked.
  unfold start, confirm_execute_command. rewrite Hc.
  unfold bind at 1. unfold bind at 1.
  unfold _get_user_input. fold asked. rewrite Hin.
  unfold ret at 1. rewrite Hcc. cbn match. rewrite Hcc.
  unfold bind, ret. reflexivity.
Qed.

Lemma start_executes_the_confirmed_text_witness :
  fst (start (Some "  rm -rf /") (Samples.env_answering "ls" Samples.three_lines)
         Samples.fresh)
  = Ok (Some "ls",
        Some (String.append "one" (nl (String.append "two"
                (nl "[Output truncated]"))))).
Proof.
  rewrite (start_executes_the_confirmed_text "  rm -rf /" "ls"
             (Samples.env_answering "ls" Samples.three_lines) Samples.fresh
             eq_refl eq_refl eq_refl).
  reflexivity.
Defined.

(** *** Completion *)

Lemma _process_command_output_completed
    (proc : Handle) (command0 out err : string) (env : Env) (w : World) :
  let loop := entered_loop proc env w in
  let res := _process_command_output proc command0 env w in
  let text :=
    final_output w
      (match fst (fst loop) with
       | [] => [no_output_message]
       | l => l
       end) out in
  let error_str := if Py.truthy err then Py.strip err else EmptyString in
  snd (fst loop) = Ok tt ->
  communicate (snd proc) = Ok (out, err) ->
  fst res = Ok (if (returncode (snd proc) =? 0)%Z then text
                else String.append "Error: " error_str)
  /\ history (self (snd res))
     = history (self w)
       ++ [{| command := command0; output := text; error := error_str |}]
  /\ sudo_password (self (snd res)) = None
  /\ ui (self (snd res)) = ui (self w).
Proof.
  intros loop res text error_str Hloop Hcomm. unfold res.
  rewrite (ExecutorFacts._process_command_output_ended _ _ _ _ _ _
             Hloop Hcomm).
  rewrite ExecutorFacts._finalize_command_output_spec.
  destruct (ExecutorFacts.entered_loop_spec proc env w) as (evs & Hw & _).
  unfold text, loop, final_output. rewrite Hw. cbn. auto.
Qed.

(** X9. When the stream ends and [communicate()] returns,
    [_process_command_output] appends exactly one record to [history],
    with the command line, the final text and the stripped stderr; it
    sets the cached credential to [None] and leaves the UI alone,
    whatever the exit code; and it returns the final text for exit code
    0, and [Error: ] followed by the stripped stderr otherwise. *)
Theorem completed_command_is_recorded_once
    (proc : Handle) (command0 out err : string) (env : Env) (w : World) :
  let loop := entered_loop proc env w in
  let res := _process_command_output proc command0 env w in
  let text :=
    final_output w
      (match fst (fst loop) with
       | [] => [no_output_message]
       | l => l
       end) out in
  let error_str := if Py.truthy err then Py.strip err else EmptyString in
  snd (fst loop) = Ok tt ->
  communicate (snd proc) = Ok (out, err) ->
  fst res = Ok (if (returncode (snd proc) =? 0)%Z then text
                else String.append "Error: " error_str)
  /\ history (self (snd res))
     = history (self w)
       ++ [{| command := command0; output := text; error := error_str |}]
  /\ sudo_password (self (snd res)) = None
  /\ ui (self (snd res)) = ui (self w).
Proof. apply _process_command_output_completed. Qed.

Lemma completed_command_is_recorded_once_witness :
  let res := _process_command_output (0, MoreSamples.failing) "apt install x"
               (Samples.env_of MoreSamples.failing)
               (Samples.fresh_with_ui "hunter2") in
  fst res = Ok "Error: no such package"
  /\ history (self (snd res))
     = [{| command := "apt install x";
           output := String.append "Reading" (nl "E: not found");
           error := "no such package" |}]
  /\ sudo_password (self (snd res)) = None
  /\ ui (self (snd res)) = Some {| pswd := Some "hunter2" |}.
Proof.
  exact (completed_command_is_recorded_once (0, MoreSamples.failing)
           "apt install x" EmptyString
           (String.append " no such package " (nl EmptyString))
           (Samples.env_of MoreSamples.failing)
           (Samples.fresh_with_ui "hunter2") eq_refl eq_refl).
Defined.

(** X10. After a sudo command has run to completion with a cached
    credential, the credential is no longer in [sudo_password], but the
    record appended to [history] holds the command line that was
    spawned, in which the credential stands. *)
Theorem cleared_credential_stays_in_history
    (command0 pw out err : string) (env : Env) (w : World) (p : Process) :
  let proc := (length (spawns (trace w)), p) in
  let loop := entered_loop proc env
                (record_event w (ESpawn (sudo_command pw command0))) in
  let res := execute_command command0 env w in
  Py.startswith command0 "sudo" = true ->
  sudo_password (self w) = Some pw ->
  Py.truthy pw = true ->
  create_subprocess_shell env (length (spawns (trace w)))
    (sudo_command pw command0) = Ok p ->
  snd (fst loop) = Ok tt ->
  communicate p = Ok (out, err) ->
  sudo_password (self (snd res)) = None
  /\ option_map command (last (history (self (snd res))))
     = Some (sudo_command pw command0)
  /\ Py.contains pw (sudo_command pw command0) = true.
Proof.
  intros proc loop res Hsudo Hpw Ht Hspawn Hloop Hcomm. unfold res.
  assert (Hc : Py.truthy command0 = true).
  { destruct command0; [discriminate|reflexivity]. }
  assert (Hline : shell_command (self w) command0
                  = Some (sudo_command pw command0)).
  { unfold shell_command, available_credential.
    rewrite Hsudo, Hpw. simpl. rewrite Ht. reflexivity. }
  assert (Hacq : acquire command0 w = w).
  { unfold acquire. rewrite Hsudo, Hpw. simpl. rewrite Ht. reflexivity. }
  rewrite (ExecutorFacts.execute_command_runs _ _ _ _ Hc Hline), Hacq.
  rewrite (ExecutorFacts.spawn_and_process_started _ _ _ _ Hspawn).
  fold proc.
  destruct (_process_command_output_completed proc
              (sudo_command pw command0) out err env
              (record_event w (ESpawn (sudo_command pw command0)))
              Hloop Hcomm) as (Hres & Hhist & Hclear & _).
  destruct (_process_command_output proc _ env _) as [[o|e] w2];
    cbn [fst snd] in *; [|discriminate].
  split; [exact Hclear|]. split.
  - rewrite Hhist, last_snoc. reflexivity.
  - unfold sudo_command. apply (ExecutorFacts.contains_append "echo " pw).
Qed.

Lemma cleared_credential_stays_in_history_witness :
  let res := execute_command "sudo ls" (Samples.env_of Samples.quiet)
               (Samples.fresh_with_ui "hunter2") in
  sudo_password (self (snd res)) = None
  /\ option_map command (last (history (self (snd res))))
     = Some "echo hunter2 | sudo -S ls".
Proof.
  destruct (cleared_credential_stays_in_history "sudo ls" "hunter2"
              EmptyString EmptyString (Samples.env_of Samples.quiet)
              (Samples.fresh_with_ui "hunter2") Samples.quiet
              eq_refl eq_refl eq_refl eq_refl eq_refl eq_refl)
    as (H1 & H2 & _).
  split; [exact H1 | exact H2].
Defined.

(** *** Lines and newlines *)

Lemma count_LF_append a b :
  count_LF (String.append a b) = count_LF a + count_LF b.
Proof.
  induction a as [|c a IH]; simpl; [reflexivity|]. rewrite IH. lia.
Qed.

Lemma count_LF_join (ls : list string) :
  Forall one_line ls ->
  count_LF (Py.join (nl EmptyString) ls) = pred (length ls).
Proof.
  induction 1 as [|l ls Hl Hls IH]; [reflexivity|].
  destruct ls as [|l' ls]; [exact Hl|].
  change (Py.join (nl EmptyString) (l :: l' :: ls))
    with (String.append l
            (String.append (nl EmptyString)
               (Py.join (nl EmptyString) (l' :: ls)))).
  rewrite !count_LF_append, IH, Hl. reflexivity.
Qed.

Lemma no_control_one_line s : no_control s = true -> one_line s.
Proof.
  unfold no_control, one_line. induction s as [|c s IH]; simpl; [reflexivity|].
  intros H. apply andb_prop in H as [Hc Hs]. rewrite (IH Hs).
  destruct (Ascii.eqb_spec c Py.LF) as [->|]; [discriminate|reflexivity].
Qed.

Lemma linebreak_LF : Py.is_linebreak Py.LF = true.
Proof. reflexivity. Qed.

Lemma one_line_snoc cur c :
  one_line cur -> Py.is_linebreak c = false ->
  one_line (String.append cur (String c EmptyString)).
Proof.
  unfold one_line. intros Hcur Hc. rewrite count_LF_append, Hcur. simpl.
  destruct (Ascii.eqb_spec c Py.LF) as [->|]; [|reflexivity].
  rewrite linebreak_LF in Hc. discriminate.
Qed.

Lemma splitlines_from_one_line_aux s :
  (forall cur, one_line cur -> Forall one_line (Py.splitlines_from cur s))
  /\ (forall c cur, one_line cur ->
        Forall one_line (Py.splitlines_from cur (String c s))).
Proof.
  induction s as [|d r [IHA IHB]].
  - split.
    + intros cur Hcur. simpl. destruct (Py.truthy cur); auto.
    + intros c cur Hcur. simpl.
      destruct (Py.is_linebreak c) eqn:E; [auto|].
      pose proof (one_line_snoc cur c Hcur E).
      destruct (Py.truthy _); auto.
  - split; [intros cur Hcur; apply IHB, Hcur|].
    intros c cur Hcur.
    change (Py.splitlines_from cur (String c (String d r)))
      with (if Py.is_linebreak c then
              if Ascii.eqb c Py.CR && Ascii.eqb d Py.LF
              then cur :: Py.splitlines_from EmptyString r
              else cur :: Py.splitlines_from EmptyString (String d r)
            else Py.splitlines_from
                   (String.append cur (String c EmptyString)) (String d r)).
    destruct (Py.is_linebreak c) eqn:E.
    + destruct (Ascii.eqb c Py.CR && Ascii.eqb d Py.LF);
        constructor; try exact Hcur; [apply IHA|apply IHB]; reflexivity.
    + apply IHB, one_line_snoc; assumption.
Qed.

Lemma splitlines_from_one_line s cur :
  one_line cur -> Forall one_line (Py.splitlines_from cur s).
Proof. apply (proj1 (splitlines_from_one_line_aux s)). Qed.

Lemma collected_one_line output_lines out :
  Forall one_line output_lines ->
  Forall one_line (collect_output_lines output_lines out).
Proof.
  intros H. unfold collect_output_lines.
  set (additional := if Py.truthy out then Py.strip out else EmptyString).
  assert (H1 : Forall one_line
                 (if Py.truthy additional
                  then output_lines ++ Py.splitlines additional
                  else output_lines)).
  { destruct (Py.truthy additional); [|exact H].
    apply Forall_app. split; [exact H|].
    apply splitlines_from_one_line. reflexivity. }
  destruct (if Py.truthy additional then _ else _); [|exact H1].
  constructor; [reflexivity|constructor].
Qed.

Lemma truncated_one_line limit ls :
  Forall one_line ls -> Forall one_line (truncate_output_lines limit ls).
Proof.
  intros H. unfold truncate_output_lines, Py.slice_to.
  destruct (limit <? Z.of_nat (length ls))%Z; [|exact H].
  apply Forall_app. split.
  - destruct (0 <=? limit)%Z; apply Forall_take, H.
  - constructor; [reflexivity|constructor].
Qed.

Lemma truncated_length limit (ls : list string) :
  (0 <= limit)%Z ->
  (Z.of_nat (length (truncate_output_lines limit ls)) <= limit + 1)%Z.
Proof.
  intros H0. unfold truncate_output_lines.
  destruct (limit <? Z.of_nat (length ls))%Z eqn:E.
  - rewrite ExecutorFacts.slice_to_nonneg by exact H0.
    rewrite length_app, length_take. simpl. lia.
  - apply Z.ltb_ge in E. lia.
Qed.

Lemma truncated_nonempty limit (ls : list string) :
  ls <> [] -> truncate_output_lines limit ls <> [].
Proof.
  intros Hne. unfold truncate_output_lines.
  destruct (limit <? Z.of_nat (length ls))%Z; [|exact Hne].
  destruct (Py.slice_to limit ls); discriminate.
Qed.

Lemma collected_nonempty output_lines out :
  collect_output_lines output_lines out <> [].
Proof.
  unfold collect_output_lines.
  destruct (if Py.truthy _ then _ else _); discriminate.
Qed.

Lemma cleaned_one_line (texts : list string) :
  Forall one_line (omap clean_line texts).
Proof.
  induction texts as [|t texts IH]; simpl; [constructor|].
  destruct (clean_line t) as [c|] eqn:E; [|exact IH].
  constructor; [|exact IH].
  apply no_control_one_line.
  apply (_extract_meaningful_text_Some _ _ E).
Qed.

(** X11. The text returned for a command that ran to completion with
    exit code 0 has one line for each line kept and no other newline:
    each kept line, cleaned from the stream or split off what
    [communicate()] returned, is free of newlines. With a line limit that
    is not negative, the text has at most that many lines plus one. *)
Theorem returned_text_has_one_line_per_kept_line
    (proc : Handle) (command0 out err : string) (env : Env) (w : World) :
  let loop := entered_loop proc env w in
  let res := _process_command_output proc command0 env w in
  let limit := max_output_lines (self w) in
  let kept :=
    truncate_output_lines limit
      (collect_output_lines
         (match fst (fst loop) with
          | [] => [no_output_message]
          | l => l
          end) out) in
  snd (fst loop) = Ok tt ->
  communicate (snd proc) = Ok (out, err) ->
  returncode (snd proc) = 0%Z ->
  exists text,
    fst res = Ok text
    /\ S (count_LF text) = length kept
    /\ ((0 <= limit)%Z -> (Z.of_nat (S (count_LF text)) <= limit + 1)%Z).
Proof.
  intros loop res limit kept Hloop Hcomm Hrc.
  destruct (_process_command_output_completed proc command0 out err env w
              Hloop Hcomm) as (Hres & _).
  rewrite Hrc in Hres. cbn in Hres.
  eexists. split; [exact Hres|].
  assert (Hlines : Forall one_line (fst (fst loop))).
  { unfold loop, entered_loop.
    destruct (loop_lines_are_cleaned (fst proc) (stdout (snd proc)) env []
                (record_event w (EMonitorStart (fst proc)))) as (n & ->).
    apply cleaned_one_line. }
  assert (Hkept : Forall one_line kept).
  { apply truncated_one_line, collected_one_line.
    destruct (fst (fst loop)); [|exact Hlines].
    constructor; [reflexivity|constructor]. }
  assert (Hne : kept <> []).
  { apply truncated_nonempty, collected_nonempty. }
  unfold final_output. fold loop limit kept.
  rewrite (count_LF_join _ Hkept).
  split.
  - destruct kept; [contradiction|reflexivity].
  - intros H0. pose proof (truncated_length limit
      (collect_output_lines
         (match fst (fst loop) with
          | [] => [no_output_message]
          | l => l
          end) out) H0) as Hl.
    fold kept in Hl. destruct kept; [contradiction|]. simpl in *. lia.
Qed.

Lemma returned_text_has_one_line_per_kept_line_witness :
  exists text,
    fst (_process_command_output (0, Samples.three_lines) "seq 3"
           (Samples.env_of Samples.three_lines) Samples.fresh) = Ok text
    /\ S (count_LF text) = 3
    /\ ((0 <= 2)%Z -> (Z.of_nat (S (count_LF text)) <= 2 + 1)%Z).
Proof.
  exact (returned_text_has_one_line_per_kept_line (0, Samples.three_lines)
           "seq 3" EmptyString EmptyString
           (Samples.env_of Samples.three_lines) Samples.fresh
           eq_refl eq_refl eq_refl).
Defined.

End ExecutorMore.

(** ** More properties of the task queue *)

Module TasksMore.
Import Tasks TasksNotions.
Local Open Scope nat_scope.

(** *** The running flag *)

Lemma flag_ok_worker_exit l : flag_ok (worker_exit l).
Proof. reflexivity. Qed.

Lemma flag_ok_worker_loop l :
  worker_running (tm l) = true -> flag_ok (worker_loop l).
Proof.
  intros H. unfold worker_loop.
  destruct (task_queue (tm l)); [reflexivity|exact H].
Qed.

Lemma resolve_tm f r l : tm (snd (resolve f r l)) = tm l.
Proof. unfold resolve. destruct (futures l !! f) as [[| |]|]; reflexivity. Qed.

Lemma flag_ok_worker_resume t r l :
  worker_running (tm l) = true -> flag_ok (worker_resume t r l).
Proof.
  intros H. unfold worker_resume.
  assert (Hres : forall r', worker_running
                   (tm (snd (resolve (snd t) r' l))) = true)
    by (intros r'; rewrite resolve_tm; exact H).
  destruct r as [v|e].
  - specialize (Hres (Ok v)).
    destruct (resolve (snd t) (Ok v) l) as [[u|e] l1] eqn:E; cbn in Hres.
    + apply flag_ok_worker_loop, Hres.
    + destruct (is_Exception e); [|apply flag_ok_worker_exit].
      destruct (resolve (snd t) (Raise e) l1) as [[u|e'] l2] eqn:E2.
      * apply flag_ok_worker_loop.
        replace l2 with (snd (resolve (snd t) (Raise e) l1))
          by (rewrite E2; reflexivity).
        rewrite resolve_tm. exact Hres.
      * apply flag_ok_worker_exit.
  - destruct (is_Exception e); [|apply flag_ok_worker_exit].
    specialize (Hres (Raise e)).
    destruct (resolve (snd t) (Raise e) l) as [[u|e'] l1]; cbn in Hres.
    + apply flag_ok_worker_loop, Hres.
    + apply flag_ok_worker_exit.
Qed.

Lemma flag_ok_start l :
  flag_ok l ->
  flag_ok {| tm := start (tm l); futures := futures l; log := log l |}.
Proof.
  unfold flag_ok, in_flight, start. cbn [tm].
  destruct (worker_task (tm l)) as [[|t|]|] eqn:E; cbn; rewrite ?E; auto.
Qed.

Lemma flag_ok_step e l : flag_ok l -> flag_ok (do_step e l).
Proof.
  intros H. destruct e as [w| | |]; cbn [do_step].
  - unfold enqueue.
    destruct (negb (is_coroutine_function w)); [exact H|].
    destruct (bind_error w); [exact H|]. cbn [snd].
    set (m1 := {| task_queue := task_queue (tm l) ++ [(w, length (futures l))];
                  worker_running := worker_running (tm l);
                  worker_task := worker_task (tm l) |}).
    assert (Hbase : flag_ok {| tm := m1; futures := futures l ++ [Pending];
                               log := log l |}) by exact H.
    destruct (negb (worker_running m1)); [|exact Hbase].
    apply (flag_ok_start _ Hbase).
  - apply flag_ok_start, H.
  - unfold run_worker. unfold flag_ok, in_flight in H.
    destruct (worker_task (tm l)) as [[|t|]|] eqn:Ht;
      try (unfold flag_ok, in_flight; rewrite Ht; exact H).
    + unfold _task_worker. rewrite H. apply flag_ok_worker_loop. reflexivity.
    + apply flag_ok_worker_resume, H.
  - unfold stop. unfold flag_ok, in_flight in H.
    destruct (worker_task (tm l)) as [[|t|]|] eqn:Ht;
      try (unfold flag_ok, in_flight; rewrite Ht; exact H).
    + exact H.
    + apply flag_ok_worker_resume, H.
Qed.

Lemma flag_ok_steps es : forall l, flag_ok l -> flag_ok (run_steps es l).
Proof.
  induction es as [|e es IH]; intros l H; [exact H|].
  change (run_steps (e :: es) l) with (run_steps es (do_step e l)).
  apply IH, flag_ok_step, H.
Qed.

(** X12. Under every schedule, [worker_running] is set exactly while the
    worker is suspended in a unit of work. So the worker task never finds
    the flag set on its first run: the guard at the entry of
    [_task_worker] never makes it return, and the first run is the entry
    into the loop. *)
Theorem running_flag_tells_a_unit_in_flight (es : list step) :
  let l := run_steps es init in
  worker_running (tm l) = in_flight l
  /\ (worker_task (tm l) = Some Scheduled ->
      run_worker l
      = worker_loop
          {| tm := {| task_queue := task_queue (tm l);
                      worker_running := true;
                      worker_task := Some Scheduled |};
             futures := futures l; log := log l |}).
Proof.
  intros l.
  assert (H : flag_ok l) by (apply flag_ok_steps; reflexivity).
  split; [exact H|].
  intros Hs. unfold flag_ok, in_flight in H. rewrite Hs in H.
  unfold run_worker, _task_worker. rewrite Hs, H. reflexivity.
Qed.

Lemma running_flag_tells_a_unit_in_flight_witness :
  run_worker (run_steps [Enqueue Samples.unit_A] init)
  = worker_loop
      {| tm := {| task_queue := [(Samples.unit_A, 0)];
                  worker_running := true;
                  worker_task := Some Scheduled |};
         futures := [Pending]; log := [] |}.
Proof.
  destruct (running_flag_tells_a_unit_in_flight [Enqueue Samples.unit_A])
    as (_ & H).
  exact (H eq_refl).
Defined.

(** *** The order of the calls *)

Lemma begun_app lg1 lg2 : begun (lg1 ++ lg2) = begun lg1 ++ begun lg2.
Proof.
  induction lg1 as [|a lg1 IH]; simpl; [reflexivity|].
  destruct a; simpl; rewrite IH; reflexivity.
Qed.

Lemma tasks_from_snd i ws : map snd (tasks_from i ws) = seq i (length ws).
Proof.
  revert i. induction ws as [|w ws IH]; intros i; simpl; [reflexivity|].
  rewrite IH. reflexivity.
Qed.

Lemma fifo_init : fifo [] init.
Proof.
  split; [split; cbn; auto; intros; lia|]. intros t H. discriminate.
Qed.

Lemma fifo_core_worker_exit ws l : fifo_core ws l -> fifo ws (worker_exit l).
Proof.
  intros [H1 H2 H3 H4 H5]. split; [split; assumption|].
  intros t H. discriminate.
Qed.

Lemma fifo_core_worker_loop ws l : fifo_core ws l -> fifo ws (worker_loop l).
Proof.
  intros Hc. unfold worker_loop.
  destruct (task_queue (tm l)) as [|t q] eqn:Hq;
    [apply fifo_core_worker_exit, Hc|].
  destruct Hc as [H1 H2 H3 H4 H5].
  set (k := length (begun (log l))) in *.
  rewrite Hq in H4.
  destruct (drop k ws) as [|w rest] eqn:Hd; [discriminate|].
  cbn in H4. injection H4 as -> ->.
  assert (Hk : k < length ws).
  { assert (length (drop k ws) = S (length rest)) by (rewrite Hd; reflexivity).
    rewrite length_drop in H. lia. }
  assert (Hw : ws !! k = Some w).
  { rewrite <- (Nat.add_0_r k), <- lookup_drop, Hd. reflexivity. }
  assert (Hrest : rest = drop (S k) ws).
  { replace (S k) with (k + 1) by lia.
    rewrite <- drop_drop, Hd. reflexivity. }
  assert (Hb : begun (log l ++ [Began k]) = seq 0 (S k)).
  { rewrite begun_app, H2, seq_S. fold k. reflexivity. }
  split; [split|]; cbn [futures log tm task_queue worker_task fst snd].
  - exact H1.
  - rewrite Hb, length_seq. reflexivity.
  - rewrite Hb, length_seq. lia.
  - rewrite Hb, length_seq, <- Hrest. reflexivity.
  - intros f Hf Hlt. rewrite Hb, length_seq in Hf. apply H5; lia.
  - intros t E. injection E as <-. cbn [fst snd].
    rewrite Hb, length_seq. split; [reflexivity|]. split; [exact Hw|].
    apply H5; [fold k; lia|exact Hk].
Qed.

Lemma fifo_core_resolve ws l f r :
  fifo_core ws l ->
  f < length (begun (log l)) ->
  fifo_core ws (snd (resolve f r l)).
Proof.
  intros Hc Hf. unfold resolve.
  destruct (futures l !! f) as [[|r0|]|]; try exact Hc.
  destruct Hc as [H1 H2 H3 H4 H5].
  assert (Hb : begun (log l ++ [match r with
                                | Ok v => SetResult f v
                                | Raise e => SetException f e
                                end]) = begun (log l)).
  { rewrite begun_app. destruct r; apply app_nil_r. }
  split; cbn [snd futures log tm]; rewrite ?Hb; auto.
  - rewrite length_insert. exact H1.
  - intros f' Hge Hlt. rewrite list_lookup_insert_ne by lia. auto.
Qed.

Lemma fifo_worker_resume ws l t r :
  fifo ws l ->
  worker_task (tm l) = Some (Awaiting t) ->
  fifo ws (worker_resume t r l).
Proof.
  intros [Hc Ha] Ht. destruct (Ha t Ht) as (Hk & _ & _).
  assert (Hlt : snd t < length (begun (log l))) by lia.
  unfold worker_resume.
  assert (Hres : forall r', fifo_core ws (snd (resolve (snd t) r' l)))
    by (intros r'; apply fifo_core_resolve; assumption).
  destruct r as [v|e].
  - specialize (Hres (Ok v)) as Hv.
    destruct (resolve (snd t) (Ok v) l) as [[u|e] l1] eqn:E; cbn in Hv.
    + apply fifo_core_worker_loop, Hv.
    + destruct (TasksFacts.resolve_raises _ _ _ _ _ E) as (-> & Hall).
      destruct (is_Exception e); [|apply fifo_core_worker_exit, Hc].
      rewrite Hall. apply fifo_core_worker_exit, Hc.
  - destruct (is_Exception e); [|apply fifo_core_worker_exit, Hc].
    specialize (Hres (Raise e)) as He.
    destruct (resolve (snd t) (Raise e) l) as [[u|e'] l1]; cbn in He.
    + apply fifo_core_worker_loop, He.
    + apply fifo_core_worker_exit, He.
Qed.

Lemma fifo_start ws l :
  fifo ws l ->
  fifo ws {| tm := start (tm l); futures := futures l; log := log l |}.
Proof.
  intros [[H1 H2 H3 H4 H5] Ha]. unfold start.
  split; [split|]; cbn [futures log tm]; auto.
  - destruct (worker_task (tm l)) as [[|t|]|]; exact H4.
  - intros t. destruct (worker_task (tm l)) as [[|t'|]|] eqn:E;
      cbn; try discriminate; rewrite ?E; apply Ha.
Qed.

Lemma fifo_enqueue ws l w :
  accepted w = true ->
  fifo ws l ->
  fifo (ws ++ [w]) (snd (enqueue w l)).
Proof.
  intros Hacc Hf. unfold accepted in Hacc. apply andb_prop in Hacc as [Hc Hb].
  unfold binds in Hb. destruct (bind_error w) eqn:Hbe; [discriminate|].
  unfold enqueue. rewrite Hc, Hbe. cbn [negb snd].
  set (m1 := {| task_queue := task_queue (tm l) ++ [(w, length (futures l))];
                worker_running := worker_running (tm l);
                worker_task := worker_task (tm l) |}).
  assert (Hbase : fifo (ws ++ [w])
            {| tm := m1; futures := futures l ++ [Pending]; log := log l |}).
  { destruct Hf as [[H1 H2 H3 H4 H5] Ha].
    set (k := length (begun (log l))) in *.
    split; [split|]; cbn [futures log tm task_queue worker_task m1].
    - rewrite !length_app, H1. reflexivity.
    - exact H2.
    - rewrite length_app. fold k. lia.
    - fold k. rewrite H4, drop_app_le by exact H3.
      rewrite TasksFacts.tasks_from_app, H1, length_drop.
      replace (k + (length ws - k)) with (length ws) by lia. reflexivity.
    - fold k. intros f Hge Hlt. rewrite length_app in Hlt. cbn in Hlt.
      destruct (Nat.lt_ge_cases f (length ws)) as [Hin|Hout].
      + rewrite lookup_app_l by (rewrite H1; exact Hin). auto.
      + rewrite lookup_app_r by (rewrite H1; exact Hout).
        replace (f - length (futures l)) with 0 by lia. reflexivity.
    - intros t Ht. destruct (Ha t Ht) as (A1 & A2 & A3).
      split; [exact A1|]. split; apply lookup_app_l_Some; assumption. }
  destruct (negb (worker_running m1)); [|exact Hbase].
  apply (fifo_start _ _ Hbase).
Qed.

Lemma fifo_step ws l e :
  fifo ws l -> fifo (ws ++ submitted [e]) (do_step e l).
Proof.
  intros Hf. destruct e as [w| | |]; cbn [submitted do_step].
  - destruct (accepted w) eqn:Ha.
    + apply fifo_enqueue; assumption.
    + rewrite app_nil_r, (TasksFacts.enqueue_rejected _ _ Ha). exact Hf.
  - rewrite app_nil_r. apply fifo_start, Hf.
  - rewrite app_nil_r. unfold run_worker.
    destruct (worker_task (tm l)) as [[|t|]|] eqn:Ht; try exact Hf.
    + unfold _task_worker. destruct Hf as [[H1 H2 H3 H4 H5] Ha].
      destruct (worker_running (tm l)).
      * split; [split; assumption|]. cbn. discriminate.
      * apply fifo_core_worker_loop. split; assumption.
    + apply fifo_worker_resume; assumption.
  - rewrite app_nil_r. unfold stop.
    destruct (worker_task (tm l)) as [[|t|]|] eqn:Ht; try exact Hf.
    + destruct Hf as [[H1 H2 H3 H4 H5] Ha].
      split; [split; assumption|]. cbn. discriminate.
    + apply fifo_worker_resume; assumption.
Qed.

Lemma fifo_steps es : forall ws l,
  fifo ws l -> fifo (ws ++ submitted es) (run_steps es l).
Proof.
  induction es as [|e es IH]; intros ws l Hf.
  - simpl. rewrite app_nil_r. exact Hf.
  - change (run_steps (e :: es) l) with (run_steps es (do_step e l)).
    change (e :: es) with ([e] ++ es).
    rewrite TasksFacts.submitted_app, app_assoc. apply IH, fifo_step, Hf.
Qed.

Lemma fifo_reached es : fifo (submitted es) (run_steps es init).
Proof. apply (fifo_steps es [] init fifo_init). Qed.

(** X13. Under every schedule, calls of [stop] included, the worker calls
    the units of work in the order of their submission, each at most
    once and none skipped: the futures of the units called are 0, 1, ...
    in this order, and the queue holds the units not yet called, in
    their order, each with its own future. *)
Theorem units_are_called_in_submission_order (es : list step) :
  let l := run_steps es init in
  let k := length (begun (log l)) in
  begun (log l) = seq 0 k
  /\ k <= length (submitted es)
  /\ task_queue (tm l) = tasks_from k (drop k (submitted es))
  /\ map snd (task_queue (tm l)) = seq k (length (submitted es) - k).
Proof.
  intros l k. destruct (fifo_reached es) as [[H1 H2 H3 H4 H5] _].
  fold l in H1, H2, H3, H4, H5. fold k in H2, H3, H4.
  split; [exact H2|]. split; [exact H3|]. split; [exact H4|].
  rewrite H4, tasks_from_snd, length_drop. reflexivity.
Qed.



(** *** Stop and relaunch *)

Lemma tasks_from_later i ws f :
  f < i -> Forall (fun t : PendingTask => snd t <> f) (tasks_from i ws).
Proof.
  revert i. induction ws as [|w ws IH]; intros i Hf; simpl; constructor.
  - simpl. lia.
  - apply IH. lia.
Qed.

(** X15. [stop] called while the worker is suspended in a unit of work
    that lets the cancellation through abandons that task: the worker is
    done and no longer running, the queue, the futures and the log are
    as before, and the handle of the task, pending, is never resolved
    under any continuation of the schedule. *)
Theorem stop_abandons_the_task_in_flight
    (es : list step) (w : Work) (f : nat) (e : exn) :
  let l := run_steps es init in
  worker_task (tm l) = Some (Awaiting (w, f)) ->
  on_cancel w = Raise e ->
  is_Exception e = false ->
  submitted es !! f = Some w
  /\ tm (stop l) = {| task_queue := task_queue (tm l);
                      worker_running := false;
                      worker_task := Some Done |}
  /\ futures (stop l) = futures l
  /\ log (stop l) = log l
  /\ forall es',
       futures (run_steps es' (stop l)) !! f = Some Pending
       /\ resolutions f (log (run_steps es' (stop l))) = 0.
Proof.
  intros l Ht Hc He.
  destruct (fifo_reached es) as [[H1 H2 H3 H4 H5] Ha]. fold l in H1, H2, H3, H4, H5, Ha.
  destruct (Ha _ Ht) as (Hk & Hw & Hp). cbn [fst snd] in *.
  assert (Hstop : stop l = worker_exit l).
  { unfold stop. rewrite Ht. unfold worker_resume. cbn [fst snd].
    rewrite Hc, He. reflexivity. }
  rewrite Hstop. split; [exact Hw|].
  split; [reflexivity|]. split; [reflexivity|]. split; [reflexivity|].
  intros es'.
  assert (Hd : dropped f (worker_exit l)).
  { split; [exact Hp|]. split.
    - cbn. rewrite H4. apply tasks_from_later. lia.
    - cbn. discriminate. }
  destruct (TasksFacts.dropped_steps f es' _ Hd) as (Hpend & _).
  split; [exact Hpend|].
  pose proof (TasksFacts.sound_steps (es ++ Stop :: es') [] init
                TasksFacts.sound_init) as Hs.
  rewrite TasksFacts.run_steps_app in Hs.
  change (run_steps (Stop :: es') (run_steps es init))
    with (run_steps es' (stop l)) in Hs.
  rewrite Hstop in Hs.
  pose proof (sound_futures _ _ Hs f) as Hf. rewrite Hpend in Hf. exact Hf.
Qed.

Lemma stop_abandons_the_task_in_flight_witness :
  let l := run_steps [Enqueue Samples.unit_A; Enqueue Samples.unit_C; Run]
             init in
  tm (stop l) = {| task_queue := [(Samples.unit_C, 1)];
                   worker_running := false;
                   worker_task := Some Done |}
  /\ forall es',
       futures (run_steps es' (stop l)) !! 0 = Some Pending
       /\ resolutions 0 (log (run_steps es' (stop l))) = 0.
Proof.
  destruct (stop_abandons_the_task_in_flight
              [Enqueue Samples.unit_A; Enqueue Samples.unit_C; Run]
              Samples.unit_A 0 CancelledError eq_refl eq_refl eq_refl)
    as (_ & H1 & _ & _ & H2).
  split; [exact H1 | exact H2].
Defined.

Lemma lookup_offset_pending F done rest :
  (F ++ map finished done ++ Pending :: map pending rest)
    !! (length F + length done) = Some Pending.
Proof.
  rewrite lookup_app_r by lia.
  replace (length F + length done - length F) with (length done) by lia.
  apply TasksFacts.lookup_middle_pending.
Qed.

Lemma insert_offset_finished F done w rest :
  <[length F + length done := Finished (body w)]>
    (F ++ map finished done ++ Pending :: map pending rest)
  = F ++ map finished (done ++ [w]) ++ map pending rest.
Proof.
  rewrite insert_app_r_alt by lia.
  replace (length F + length done - length F) with (length done) by lia.
  rewrite TasksFacts.insert_middle_finished. reflexivity.
Qed.

Lemma serial_from_run F L ws n l :
  forallb settles ws = true ->
  serial_from F L ws (S n) l ->
  serial_from F L ws n (run_worker l).
Proof.
  intros Hs H. inversion H as [done rest E Hn|done w rest E Hn|]; subst.
  - unfold run_worker, _task_worker, worker_loop. cbn.
    destruct rest as [|w rest]; cbn.
    + rewrite !app_nil_r. unfold worker_exit. cbn. apply serial_from_idle.
    + apply serial_from_awaiting. reflexivity.
  - assert (Hw : settles w = true).
    { rewrite forallb_app in Hs. apply andb_prop in Hs as [_ Hs].
      simpl in Hs. apply andb_prop in Hs as [Hs _]. exact Hs. }
    set (l0 := {| tm := {| task_queue :=
                             tasks_from (S (length F + length done)) rest;
                           worker_running := true;
                           worker_task :=
                             Some (Awaiting (w, length F + length done)) |};
                  futures := F ++ map finished done
                             ++ Pending :: map pending rest;
                  log := (L ++ serial_log (length F) done)
                         ++ [Began (length F + length done)] |}).
    assert (Hres : resolve (length F + length done) (body w) l0
                   = (Ok tt,
                      {| tm := tm l0;
                         futures := F ++ map finished (done ++ [w])
                                    ++ map pending rest;
                         log := L ++ serial_log (length F) (done ++ [w]) |})).
    { unfold resolve. cbn [futures log tm l0].
      rewrite lookup_offset_pending, insert_offset_finished.
      rewrite TasksFacts.serial_log_app, <- !app_assoc. reflexivity. }
    unfold run_worker. cbn [tm worker_task fst l0].
    unfold worker_resume. cbn [snd].
    unfold settles in Hw.
    assert (Hnext : serial_from F L (done ++ w :: rest) (length rest)
              (worker_loop
                 {| tm := tm l0;
                    futures := F ++ map finished (done ++ [w])
                               ++ map pending rest;
                    log := L ++ serial_log (length F) (done ++ [w]) |})).
    { unfold worker_loop. cbn.
      destruct rest as [|w' rest]; cbn.
      - rewrite app_nil_r. unfold worker_exit. cbn. apply serial_from_idle.
      - replace (S (length F + length done))
          with (length F + length (done ++ [w]))
          by (rewrite length_app; simpl; lia).
        apply serial_from_awaiting. rewrite <- app_assoc. reflexivity. }
    destruct (body w) as [v|e] eqn:Hb.
    + fold l0. rewrite Hres. exact Hnext.
    + rewrite Hw. fold l0. rewrite Hres. exact Hnext.
Qed.

Lemma serial_from_rest F L ws l : serial_from F L ws 0 l -> run_worker l = l.
Proof. inversion 1; subst. reflexivity. Qed.

Lemma serial_from_drain F L ws : forall m n l,
  forallb settles ws = true ->
  serial_from F L ws n l ->
  n <= m ->
  serial_from F L ws 0 (run_steps (repeat Run m) l).
Proof.
  induction m as [|m IH]; intros n l Hs H Hn.
  - assert (n = 0) as -> by lia. exact H.
  - change (run_steps (repeat Run (S m)) l)
      with (run_steps (repeat Run m) (run_worker l)).
    destruct n as [|n].
    + rewrite (serial_from_rest _ _ _ _ H). apply (IH 0); [assumption..|lia].
    + apply (IH n); [assumption|apply serial_from_run; assumption|lia].
Qed.

Lemma serial_from_final F L ws l :
  serial_from F L ws 0 l ->
  futures l = F ++ map finished ws
  /\ log l = L ++ serial_log (length F) ws
  /\ task_queue (tm l) = []
  /\ worker_running (tm l) = false.
Proof. inversion 1; subst; cbn; auto. Qed.

(** X16. From a loop whose worker is done or was never started, with
    tasks left on the queue as [stop] leaves them, the next accepted call
    of [enqueue] schedules a new worker. Given its runs, that worker
    calls the tasks left and then the new one, in this order and one at
    a time, and resolves each handle with what its unit returned or
    raised, when these are results or exceptions derived from
    [Exception]; the futures resolved or abandoned before are untouched. *)
Theorem enqueue_relaunches_the_worker
    (l : Loop) (F : list Future) (rest : list Work) (w : Work) (m : nat) :
  futures l = F ++ map pending rest ->
  task_queue (tm l) = tasks_from (length F) rest ->
  worker_running (tm l) = false ->
  worker_task (tm l) = None \/ worker_task (tm l) = Some Done ->
  accepted w = true ->
  forallb settles (rest ++ [w]) = true ->
  length rest + 1 < m ->
  worker_task (tm (snd (enqueue w l))) = Some Scheduled
  /\ let l' := run_steps (Enqueue w :: repeat Run m) l in
     futures l' = F ++ map finished (rest ++ [w])
     /\ log l' = log l ++ serial_log (length F) (rest ++ [w])
     /\ task_queue (tm l') = []
     /\ worker_running (tm l') = false.
Proof.
  intros Hfut Hq Hrun Ht Hacc Hs Hm.
  unfold accepted in Hacc. apply andb_prop in Hacc as [Hc Hb].
  assert (Henq : snd (enqueue w l)
                 = {| tm := {| task_queue :=
                                 tasks_from (length F + length (@nil Work))
                                   (rest ++ [w]);
                               worker_running := false;
                               worker_task := Some Scheduled |};
                      futures := F ++ map finished [] ++ map pending (rest ++ [w]);
                      log := log l ++ serial_log (length F) [] |}).
  { destruct l as [[q r t] fs lg]. cbn in Hfut, Hq, Hrun, Ht. subst q fs r.
    unfold binds in Hb. destruct (bind_error w) eqn:Hbe; [discriminate|].
  unfold enqueue. rewrite Hc, Hbe. cbn.
    rewrite !app_nil_r, Nat.add_0_r, length_app, length_map.
    rewrite TasksFacts.tasks_from_app, map_app, <- app_assoc.
    destruct Ht as [-> | ->]; reflexivity. }
  split; [rewrite Henq; reflexivity|].
  cbv zeta.
  change (run_steps (Enqueue w :: repeat Run m) l)
    with (run_steps (repeat Run m) (snd (enqueue w l))).
  rewrite Henq.
  assert (H0 : serial_from F (log l) (rest ++ [w]) (S (length (rest ++ [w])))
                 {| tm := {| task_queue :=
                               tasks_from (length F + length (@nil Work))
                                 (rest ++ [w]);
                             worker_running := false;
                             worker_task := Some Scheduled |};
                    futures := F ++ map finished []
                               ++ map pending (rest ++ [w]);
                    log := log l ++ serial_log (length F) [] |})
    by (apply serial_from_scheduled; reflexivity).
  assert (Hle : S (length (rest ++ [w])) <= m)
    by (rewrite length_app; cbn; lia).
  apply (serial_from_final F (log l) (rest ++ [w])).
  apply (serial_from_drain F (log l) (rest ++ [w]) m _ _ Hs H0 Hle).
Qed.

Lemma enqueue_relaunches_the_worker_witness :
  let l := run_steps [Enqueue Samples.unit_A; Enqueue Samples.unit_C;
                      Run; Stop] init in
  let l' := run_steps (Enqueue Samples.unit_B :: repeat Run 3) l in
  futures l' = [Pending; Finished (Ok 3%Z);
                Finished (Raise (ValueError "boom"))]
  /\ log l' = [Began 0; Began 1; SetResult 1 3%Z;
               Began 2; SetException 2 (ValueError "boom")].
Proof.
  assert (Hm : length [Samples.unit_C] + 1 < 3) by (cbn; lia).
  destruct (enqueue_relaunches_the_worker
              (run_steps [Enqueue Samples.unit_A; Enqueue Samples.unit_C;
                          Run; Stop] init)
              [Pending] [Samples.unit_C] Samples.unit_B 3
              eq_refl eq_refl eq_refl (or_intror eq_refl) eq_refl eq_refl Hm)
    as (_ & H1 & H2 & _).
  split; [exact H1 | exact H2].
Defined.

End TasksMore.

(** ** Properties of the rendering *)

Module RenderingFacts.
Import Rendering.

Lemma append_assoc (a b c : string) :
  String.append (String.append a b) c = String.append a (String.append b c).
Proof. induction a as [|x a IH]; simpl; [reflexivity|]. rewrite IH. reflexivity. Qed.

Lemma append_nil_r (a : string) : String.append a EmptyString = a.
Proof. induction a as [|x a IH]; simpl; [reflexivity|]. rewrite IH. reflexivity. Qed.

Lemma concat_re_split_ws_from s : forall cur in_ws,
  String.concat EmptyString (re_split_ws_from cur in_ws s)
  = String.append cur s.
Proof.
  induction s as [|c r IH]; intros cur in_ws.
  - simpl. destruct in_ws; simpl; rewrite ?append_nil_r; reflexivity.
  - assert (Hcons : forall l,
      String.concat EmptyString (cur :: l)
      = String.append cur (String.concat EmptyString l)).
    { intros [|x l]; simpl; [rewrite append_nil_r|]; reflexivity. }
    simpl re_split_ws_from.
    destruct (Py.isspace c), in_ws;
      rewrite ?Hcons, IH, ?append_assoc; reflexivity.
Qed.

Lemma fancy_print_chunks content : fancy_print content = re_split_ws content.
Proof.
  unfold fancy_print.
  induction (re_split_ws content) as [|chunk l IH]; simpl; [reflexivity|].
  rewrite IH.
  destruct (String.eqb_spec chunk (String Py.LF EmptyString)) as [->|];
    reflexivity.
Qed.

Lemma all_space_snoc cur c :
  all_space cur = true -> Py.isspace c = true ->
  all_space (String.append cur (String c EmptyString)) = true.
Proof.
  unfold all_space. induction cur as [|x cur IH]; simpl; intros H Hc.
  - rewrite Hc. reflexivity.
  - apply andb_prop in H as [-> H]. simpl. auto.
Qed.

Lemma no_space_snoc cur c :
  no_space cur = true -> Py.isspace c = false ->
  no_space (String.append cur (String c EmptyString)) = true.
Proof.
  unfold no_space. induction cur as [|x cur IH]; simpl; intros H Hc.
  - rewrite Hc. reflexivity.
  - apply andb_prop in H as [-> H]. simpl. auto.
Qed.

Lemma re_split_ws_from_kinds s : forall (cur : string) (in_ws : bool),
  (if in_ws then all_space cur else no_space cur) = true ->
  Forall (fun chunk => all_space chunk = true \/ no_space chunk = true)
    (re_split_ws_from cur in_ws s).
Proof.
  induction s as [|c r IH]; intros cur in_ws Hcur.
  - simpl. destruct in_ws.
    + constructor; [left; exact Hcur|].
      constructor; [left; reflexivity|constructor].
    + constructor; [right; exact Hcur|constructor].
  - simpl. destruct (Py.isspace c) eqn:E, in_ws.
    + apply IH. apply all_space_snoc; assumption.
    + constructor; [auto|]. apply IH. unfold all_space. simpl.
      rewrite E. reflexivity.
    + constructor; [auto|]. apply IH. unfold no_space. simpl.
      rewrite E. reflexivity.
    + apply IH. apply no_space_snoc; assumption.
Qed.

(** X17. [fancy_print] cuts the text into words and runs of white space
    and loses nothing: the values it puts on the buffer, joined in their
    order, are the text, and each of them is made of white space only or
    holds none. *)
Theorem fancy_print_preserves_the_text (content : string) :
  String.concat EmptyString (fancy_print content) = content
  /\ Forall (fun chunk => all_space chunk = true \/ no_space chunk = true)
       (fancy_print content).
Proof.
  rewrite fancy_print_chunks. unfold re_split_ws. split.
  - apply concat_re_split_ws_from.
  - apply re_split_ws_from_kinds. reflexivity.
Qed.

(** *** What [render_output] shows *)

Lemma replace_without_first_char (a : ascii) (old' new x : string) :
  forallb (fun c => negb (Ascii.eqb c a)) (list_ascii_of_string x) = true ->
  replace (String a old') new x = x.
Proof.
  unfold replace. induction x as [|c r IH]; simpl; [reflexivity|].
  intros H. apply andb_prop in H as [Hc Hr].
  destruct (ascii_dec a c) as [->|Hne].
  - rewrite Ascii.eqb_refl in Hc. discriminate.
  - rewrite (IH Hr). reflexivity.
Qed.

Lemma strip_markers_plain chunk :
  no_marker_char chunk = true -> strip_markers chunk = chunk.
Proof.
  unfold no_marker_char, strip_markers. intros H.
  assert (H1 : forallb (fun c => negb (Ascii.eqb c "#"%char))
                 (list_ascii_of_string chunk) = true).
  { induction (list_ascii_of_string chunk) as [|c l IH]; simpl in *;
      [reflexivity|].
    apply andb_prop in H as [Hc Hl]. apply andb_prop in Hc as [-> _]. auto. }
  assert (H2 : forallb (fun c => negb (Ascii.eqb c "*"%char))
                 (list_ascii_of_string chunk) = true).
  { induction (list_ascii_of_string chunk) as [|c l IH]; simpl in *;
      [reflexivity|].
    apply andb_prop in H as [Hc Hl]. apply andb_prop in Hc as [_ ->].
    apply andb_prop in H1 as [_ H1]. auto. }
  rewrite (replace_without_first_char "#" "##" EmptyString chunk H1).
  rewrite (replace_without_first_char "#" "###" EmptyString chunk H1).
  apply (replace_without_first_char "*" "*" EmptyString chunk H2).
Qed.

Lemma no_marker_char_snoc cur c :
  no_marker_char cur = true ->
  no_marker_char (String c EmptyString) = true ->
  no_marker_char (String.append cur (String c EmptyString)) = true.
Proof.
  unfold no_marker_char. induction cur as [|x cur IH]; simpl; intros H Hc.
  - exact Hc.
  - apply andb_prop in H as [-> H]. simpl. auto.
Qed.

Lemma re_split_ws_from_plain s : forall (cur : string) (in_ws : bool),
  no_marker_char cur = true ->
  no_marker_char s = true ->
  Forall (fun chunk => no_marker_char chunk = true)
    (re_split_ws_from cur in_ws s).
Proof.
  induction s as [|c r IH]; intros cur in_ws Hcur Hs.
  - simpl. destruct in_ws; repeat constructor; assumption.
  - assert (Hc : no_marker_char (String c EmptyString) = true).
    { unfold no_marker_char in *. simpl in *.
      apply andb_prop in Hs as [-> _]. reflexivity. }
    assert (Hr : no_marker_char r = true).
    { unfold no_marker_char in *. simpl in *.
      apply andb_prop in Hs as [_ Hs]. exact Hs. }
    simpl. destruct (Py.isspace c), in_ws;
      try (constructor; [exact Hcur|]); apply IH;
      auto using no_marker_char_snoc.
Qed.

Lemma render_output_from_last (chunks : list string) :
  forall (acc : string) (more : list (option string)),
    chunks <> [] ->
    last (render_output_from acc (map Some chunks ++ None :: more))
    = Some (String.append acc
              (String.concat EmptyString (map strip_markers chunks)))
    /\ length (render_output_from acc (map Some chunks ++ None :: more))
       = length chunks.
Proof.
  induction chunks as [|chunk chunks IH]; intros acc more Hne;
    [contradiction|].
  destruct chunks as [|chunk' chunks].
  - simpl. auto.
  - destruct (IH (String.append acc (strip_markers chunk)) more
                ltac:(discriminate)) as (Hl & Hn).
    change (render_output_from acc
              (map Some (chunk :: chunk' :: chunks) ++ None :: more))
      with (String.append acc (strip_markers chunk)
            :: render_output_from (String.append acc (strip_markers chunk))
                 (map Some (chunk' :: chunks) ++ None :: more)).
    split.
    + rewrite last_cons, Hl.
      change (String.concat EmptyString
                (map strip_markers (chunk :: chunk' :: chunks)))
        with (String.append (strip_markers chunk)
                (String.concat EmptyString
                   (map strip_markers (chunk' :: chunks)))).
      rewrite append_assoc. reflexivity.
    + cbn [length]. rewrite Hn. reflexivity.
Qed.

Lemma re_split_ws_from_nonempty s cur in_ws :
  re_split_ws_from cur in_ws s <> [].
Proof.
  revert cur in_ws. induction s as [|c r IH]; intros cur in_ws; simpl.
  - destruct in_ws; discriminate.
  - destruct (Py.isspace c), in_ws; try discriminate; apply IH.
Qed.

(** X18. What [render_output] has written last, once it has consumed the
    values [fancy_print] put for a text and the end marker, is the text
    rebuilt from these values, each one rid of its markers; it has
    written once for each value. A text without [#] and [*] is shown as
    it is. *)
Theorem printed_text_is_rendered (content : string)
    (more : list (option string)) :
  let items := map Some (fancy_print content) ++ None :: more in
  last (render_output items)
  = Some (String.concat EmptyString (map strip_markers (fancy_print content)))
  /\ length (render_output items) = length (fancy_print content)
  /\ (no_marker_char content = true ->
      last (render_output items) = Some content).
Proof.
  intros items.
  assert (Hne : fancy_print content <> []).
  { rewrite fancy_print_chunks. apply re_split_ws_from_nonempty. }
  destruct (render_output_from_last (fancy_print content) EmptyString more Hne)
    as (Hl & Hn).
  split; [exact Hl|]. split; [exact Hn|].
  intros Hplain. unfold items, render_output. rewrite Hl. f_equal. simpl.
  rewrite fancy_print_chunks.
  assert (Hall : Forall (fun chunk => no_marker_char chunk = true)
                   (re_split_ws content))
    by (apply re_split_ws_from_plain; [reflexivity|exact Hplain]).
  transitivity (String.concat EmptyString (re_split_ws content));
    [|apply concat_re_split_ws_from].
  f_equal. induction Hall as [|c l Hc Hl' IH]; simpl; [reflexivity|].
  rewrite (strip_markers_plain _ Hc), IH. reflexivity.
Qed.

Lemma printed_text_is_rendered_witness :
  last (render_output (map Some (fancy_print "ls -la") ++ [None]))
  = Some "ls -la".
Proof.
  destruct (printed_text_is_rendered "ls -la" []) as (_ & _ & H).
  exact (H eq_refl).
Defined.

(** *** The second replacement of [render_output] *)

Lemma replace_absent (old new : string) (s : string) :
  Py.contains old s = false -> replace old new s = s.
Proof.
  unfold replace. induction s as [|c r IH]; intros H; [reflexivity|].
  cbn [Py.contains] in H. apply orb_false_iff in H as [Hp Hr].
  cbn [replace_skip]. rewrite Hp, (IH Hr). reflexivity.
Qed.

Lemma prefix_longer (a : ascii) (old s : string) :
  String.prefix (String.append old (String a EmptyString)) s = true ->
  String.prefix old s = true.
Proof.
  revert s. induction old as [|c old IH]; intros s H.
  - destruct s; reflexivity.
  - destruct s as [|d s]; simpl in *; [discriminate|].
    destruct (ascii_dec c d); [auto|discriminate].
Qed.

Lemma contains_longer (a : ascii) (old s : string) :
  Py.contains old s = false ->
  Py.contains (String.append old (String a EmptyString)) s = false.
Proof.
  assert (Hp : forall t, String.prefix old t = false ->
            String.prefix (String.append old (String a EmptyString)) t = false).
  { intros t Ht.
    destruct (String.prefix (String.append old (String a EmptyString)) t)
      eqn:E; [|reflexivity].
    apply prefix_longer in E. congruence. }
  induction s as [|c r IH]; cbn [Py.contains]; intros H;
    apply orb_false_iff in H as [H1 H2]; apply orb_false_iff; auto.
Qed.

Lemma prefix_hashes_1 (c : ascii) (r : string) :
  c <> "#"%char -> String.prefix "###" (String c r) = false.
Proof.
  intros Hc. cbn [String.prefix].
  destruct (ascii_dec "#" c); [congruence|reflexivity].
Qed.

Lemma prefix_hashes_2 (c : ascii) (r : string) :
  c <> "#"%char -> String.prefix "###" (String "#" (String c r)) = false.
Proof.
  intros Hc. cbn [String.prefix].
  destruct (ascii_dec "#" "#"); [|reflexivity].
  destruct (ascii_dec "#" c); [congruence|reflexivity].
Qed.

Lemma prefix_hashes_3 (c : ascii) (r : string) :
  c <> "#"%char ->
  String.prefix "###" (String "#" (String "#" (String c r))) = false.
Proof.
  intros Hc. cbn [String.prefix].
  destruct (ascii_dec "#" "#"); [|reflexivity].
  destruct (ascii_dec "#" c); [congruence|reflexivity].
Qed.

Lemma replace_hashes_taken (r : string) :
  replace "###" EmptyString (String "#" (String "#" (String "#" r)))
  = replace "###" EmptyString r.
Proof.
  unfold replace. cbn [replace_skip].
  replace (String.prefix "###" (String "#" (String "#" (String "#" r))))
    with true.
  - reflexivity.
  - cbn [String.prefix]. destruct (ascii_dec "#" "#"); [|congruence].
    destruct r; reflexivity.
Qed.

Lemma replace_hashes_leaves_none (n : nat) : forall s : string,
  String.length s < n ->
  Py.contains "###" (replace "###" EmptyString s) = false.
Proof.
  induction n as [|n IH]; intros s Hn; [lia|].
  assert (Hstep : forall c r, c <> "#"%char -> String.length r < n ->
            Py.contains "###" (replace "###" EmptyString (String c r)) = false).
  { intros c r Hc Hr. unfold replace. cbn [replace_skip].
    rewrite (prefix_hashes_1 c r Hc). cbn [Py.contains].
    rewrite (prefix_hashes_1 c _ Hc). apply (IH r Hr). }
  destruct s as [|c1 s]; [reflexivity|].
  cbn [String.length] in Hn.
  destruct (ascii_dec c1 "#") as [->|H1]; [|apply Hstep; [exact H1|lia]].
  destruct s as [|c2 s]; [reflexivity|].
  cbn [String.length] in Hn.
  destruct (ascii_dec c2 "#") as [->|H2].
  2:{ specialize (Hstep c2 s H2 ltac:(lia)).
      unfold replace in *. cbn [replace_skip] in *.
      rewrite (prefix_hashes_2 c2 s H2).
      rewrite (prefix_hashes_1 c2 s H2) in *.
      cbn [Py.contains]. rewrite (prefix_hashes_2 c2 _ H2).
      exact Hstep. }
  destruct s as [|c3 s]; [reflexivity|].
  cbn [String.length] in Hn.
  destruct (ascii_dec c3 "#") as [->|H3].
  - rewrite replace_hashes_taken. apply (IH s). lia.
  - specialize (Hstep c3 s H3 ltac:(lia)).
    unfold replace in *. cbn [replace_skip] in *.
    rewrite (prefix_hashes_3 c3 s H3), (prefix_hashes_2 c3 s H3).
    rewrite (prefix_hashes_1 c3 s H3) in *.
    cbn [Py.contains].
    rewrite (prefix_hashes_3 c3 _ H3), (prefix_hashes_2 c3 _ H3).
    exact Hstep.
Qed.

(** X19. The second replacement of [render_output] never changes a
    chunk: once the occurrences of [###] are taken out, no [###], and so
    no [####], is left. A chunk is rid of [###] and of [**] only. *)
Theorem four_hash_replacement_is_idle (chunk : string) :
  Py.contains "###" (replace "###" EmptyString chunk) = false
  /\ replace "####" EmptyString (replace "###" EmptyString chunk)
     = replace "###" EmptyString chunk
  /\ strip_markers chunk
     = replace "**" EmptyString (replace "###" EmptyString chunk).
Proof.
  assert (H : Py.contains "###" (replace "###" EmptyString chunk) = false)
    by (apply (replace_hashes_leaves_none (S (String.length chunk))); lia).
  assert (H4 : replace "####" EmptyString (replace "###" EmptyString chunk)
               = replace "###" EmptyString chunk)
    by (apply replace_absent, (contains_longer "#" "###"), H).
  split; [exact H|]. split; [exact H4|].
  unfold strip_markers. rewrite H4. reflexivity.
Qed.

End RenderingFacts.
